(** * vlock: dependency sorter, process supervisor and VT guard

  A shallow embedding of [src/tsort.h], [src/process.c] and [signals.c],
  with the properties of the specification stated over it. *)

From stdpp Require Import base decidable relations list gmap strings.

(** * Topological sorter ([src/tsort.h]) *)

Module Tsort.

(** [struct Edge]: [predecessor] must come before [successor]. *)
Record Edge (T : Type) := mkEdge { predecessor : T; successor : T }.
Arguments mkEdge {T} _ _.
Arguments predecessor {T} _.
Arguments successor {T} _.

Section tsort.
Context {T : Type} `{EqDecision T}.

(** [operator==] and [operator!=] of the node type [T] are decidable
    equality. *)

(** [is_zero]: no edge of [edges] has [node] as its successor. *)
Fixpoint is_zero (node : T) (edges : list (Edge T)) : bool :=
  match edges with
  | [] => true
  | e :: es => if decide (successor e = node) then false else is_zero node es
  end.

(** [std::list<T>::remove]: drops every element equal to [x]. *)
Fixpoint list_remove (x : T) (l : list T) : list T :=
  match l with
  | [] => []
  | y :: l' => if decide (y = x) then list_remove x l' else y :: list_remove x l'
  end.

(** The [for] loop of [get_zeros]: it stops as soon as [zeros] is empty. *)
Fixpoint get_zeros_loop (zeros : list T) (edges : list (Edge T)) : list T :=
  match edges with
  | [] => zeros
  | e :: es =>
      match zeros with
      | [] => zeros
      | _ :: _ => get_zeros_loop (list_remove (successor e) zeros) es
      end
  end.

(** [get_zeros]: a copy of [nodes] from which every successor is removed. *)
Definition get_zeros (nodes : list T) (edges : list (Edge T)) : list T :=
  get_zeros_loop nodes edges.

(** The inner [for] loop of [tsort] (lines 65-78), for the node [zero],
    with the iterator at the head of [rest].  An edge that does not leave
    [zero] is stepped over ([it++; continue]).  At an edge that leaves
    [zero], [edges.remove( *it)] unlinks and destroys the list element that
    [it] points at, which invalidates [it]; the statements that follow read
    [( *it)->successor] and [delete *it] through it, and nothing assigns
    [it] again before the loop tests it.  C++ gives such a run no meaning:
    it is undefined from there on, which is [None].  [Some tt] is a scan
    that reached [edges.end()]; it has removed no edge and appended nothing
    to [zeros]. *)
Fixpoint tsort_scan (zero : T) (rest : list (Edge T)) : option unit :=
  match rest with
  | [] => Some tt
  | e :: rest' =>
      if decide (predecessor e = zero) then None
      else tsort_scan zero rest'
  end.

(** The [while (!zeros->empty())] loop of [tsort].  A node is appended to
    [zeros] only behind the use of the invalidated iterator, so in a run
    that has a meaning the queue only shrinks and the edge list stays as it
    is: the loop is a recursion over the queue. *)
Fixpoint tsort_loop (zeros sorted_nodes : list T) (edges : list (Edge T))
  : option (list T * list (Edge T)) :=
  match zeros with
  | [] => Some (sorted_nodes, edges)
  | zero :: zeros' =>
      match tsort_scan zero edges with
      | None => None
      | Some _ => tsort_loop zeros' (sorted_nodes ++ [zero]) edges
      end
  end.

(** [std::list::empty]. *)
Definition list_empty {A} (l : list A) : bool :=
  match l with [] => true | _ :: _ => false end.

(** [tsort]: the returned flag, and the contents of [nodes] and [edges] on
    return; [None] when the run is undefined. *)
Definition tsort (nodes : list T) (edges : list (Edge T))
  : option (bool * list T * list (Edge T)) :=
  match tsort_loop (get_zeros nodes edges) [] edges with
  | None => None
  | Some (sorted_nodes, edges') =>
      let result := list_empty edges' in
      Some (result, if result then sorted_nodes else nodes, edges')
  end.

End tsort.
End Tsort.

(** * The kernel as the program sees it

    The system calls of [process.c] and [signals.c] act on the state of the
    calling process (descriptor table, signal dispositions and mask, the real
    interval timer, credentials) and on the globals of the program.  What
    the code cannot decide itself (whether [pipe] or [fork] succeeds, what
    [waitpid] reports) is read off a script of kernel answers; every call is
    appended to a log. *)

Module Sys.

Inductive signal :=
  | SIGHUP | SIGKILL | SIGUSR1 | SIGUSR2 | SIGALRM | SIGTERM
  | SIGCHLD | SIGCONT | SIGTSTP | SIGTTIN | SIGTTOU.

Global Instance signal_eq_dec : EqDecision signal.
Proof. solve_decision. Defined.

(** The signal numbers of Linux, used to count the signals. *)
Definition signal_number (s : signal) : nat :=
  match s with
  | SIGHUP => 1 | SIGKILL => 9 | SIGUSR1 => 10 | SIGUSR2 => 12
  | SIGALRM => 14 | SIGTERM => 15 | SIGCHLD => 17 | SIGCONT => 18
  | SIGTSTP => 20 | SIGTTIN => 21 | SIGTTOU => 22
  end.

Definition signal_of_number (n : nat) : signal :=
  match n with
  | 1 => SIGHUP | 9 => SIGKILL | 10 => SIGUSR1 | 12 => SIGUSR2
  | 14 => SIGALRM | 15 => SIGTERM | 17 => SIGCHLD | 18 => SIGCONT
  | 20 => SIGTSTP | 21 => SIGTTIN | _ => SIGTTOU
  end.

Global Instance signal_countable : Countable signal :=
  inj_countable' signal_number signal_of_number
    (λ s, match s with
          | SIGHUP | SIGKILL | SIGUSR1 | SIGUSR2 | SIGALRM | SIGTERM
          | SIGCHLD | SIGCONT | SIGTSTP | SIGTTIN | SIGTTOU => eq_refl
          end).

(** The functions of the program that are installed as signal handlers. *)
Inductive fnptr :=
  | fn_ignore_sigalarm | fn_release_vt | fn_acquire_vt
  | fn_signal_ignorer | fn_signal_die | fn_other (n : nat).

Inductive handler := SIG_DFL | SIG_IGN | Handler (f : fnptr).

Record sigaction_t := mkSigaction {
  sa_handler : handler;
  sa_mask : gset signal;
  sa_flags : Z;
}.

Record timeval := mkTimeval { tv_sec : Z; tv_usec : Z }.
Record itimerval := mkItimerval { it_interval : timeval; it_value : timeval }.

(** [setitimer] rejects (EINVAL) a time with a negative number of seconds or
    with microseconds outside 0..999999. *)
Definition timeval_valid (t : timeval) : bool :=
  bool_decide (0 ≤ tv_sec t ∧ 0 ≤ tv_usec t < 1000000)%Z.
Definition itimerval_valid (t : itimerval) : bool :=
  timeval_valid (it_interval t) && timeval_valid (it_value t).

(** What a descriptor refers to. *)
Inductive file :=
  | PipeRead (k : nat) | PipeWrite (k : nat) | DevNull | OtherFile (name : string).

Inductive ioctl_request := VT_RELDISP.
Definition VT_ACKACQ : Z := 2.
Definition WNOHANG : Z := 1.
Definition STDIN_FILENO : Z := 0.
Definition STDOUT_FILENO : Z := 1.
Definition STDERR_FILENO : Z := 2.

(** An answer of the kernel: the value the call returns and, for a call
    that blocks, the time left on the real timer when it comes back. *)
Record reply := mkReply { ret : Z; timer_left : timeval }.

Inductive event :=
  | EPipe (r : option (Z * Z))
  | EFork (r : Z)
  | EOpen (path : string) (r : Z)
  | EDup2 (oldfd newfd : Z)
  | EClose (fd : Z)
  | ESetgid (g : Z)
  | ESetuid (u : Z)
  | EExecv (path : string) (argv : list string) (r : Z)
  | EKill (pid : Z) (sig : signal)
  | EWaitpid (pid options r : Z)
  | ESigaction (sig : signal) (act : sigaction_t)
  | ESetitimer (new : itimerval)
  | ESigprocmask (set : gset signal)
  | EIoctl (fd : Z) (request : ioctl_request) (arg : Z)
  | ERestoreTerminal.

(** The state that the code acts on.
    Modelled from the spec: [vlock.h] is not among the sources; of its
    globals the code uses [o_lock_all], the "lock all terminals"
    configuration flag, and [vfd], the descriptor of the console. *)
Record world := mkWorld {
  fds : gmap Z file;               (* open descriptors *)
  pipes : nat;                     (* pipes created so far *)
  uid : Z; gid : Z;                (* real user and group *)
  euid : Z; egid : Z;              (* effective user and group *)
  rlimit_nofile : option Z;        (* soft RLIMIT_NOFILE; None: getrlimit fails *)
  actions : signal → sigaction_t;  (* signal dispositions *)
  mask : gset signal;              (* blocked signals *)
  real_timer : itimerval;          (* ITIMER_REAL *)
  o_lock_all : Z;                  (* vlock.h: lock all consoles *)
  vfd : Z;                         (* vlock.h: descriptor of the console *)
  osig : gset signal;              (* signals.c: static osig *)
  devnull_fd : Z;                  (* process.c: static of open_devnull *)
  stack_otimer : itimerval;        (* process.c: what the automatic otimer of
                                      wait_for_death holds before it is written *)
  script : list reply;             (* answers of the kernel to come *)
  log : list event;                (* calls made so far *)
}.

Definition set_fds (f : gmap Z file) (w : world) : world :=
  mkWorld f (pipes w) (uid w) (gid w) (euid w) (egid w) (rlimit_nofile w)
    (actions w) (mask w) (real_timer w) (o_lock_all w) (vfd w) (osig w)
    (devnull_fd w) (stack_otimer w) (script w) (log w).
Definition set_pipes (n : nat) (w : world) : world :=
  mkWorld (fds w) n (uid w) (gid w) (euid w) (egid w) (rlimit_nofile w)
    (actions w) (mask w) (real_timer w) (o_lock_all w) (vfd w) (osig w)
    (devnull_fd w) (stack_otimer w) (script w) (log w).
Definition set_euid (u : Z) (w : world) : world :=
  mkWorld (fds w) (pipes w) (uid w) (gid w) u (egid w) (rlimit_nofile w)
    (actions w) (mask w) (real_timer w) (o_lock_all w) (vfd w) (osig w)
    (devnull_fd w) (stack_otimer w) (script w) (log w).
Definition set_egid (g : Z) (w : world) : world :=
  mkWorld (fds w) (pipes w) (uid w) (gid w) (euid w) g (rlimit_nofile w)
    (actions w) (mask w) (real_timer w) (o_lock_all w) (vfd w) (osig w)
    (devnull_fd w) (stack_otimer w) (script w) (log w).
Definition set_actions (a : signal → sigaction_t) (w : world) : world :=
  mkWorld (fds w) (pipes w) (uid w) (gid w) (euid w) (egid w) (rlimit_nofile w)
    a (mask w) (real_timer w) (o_lock_all w) (vfd w) (osig w)
    (devnull_fd w) (stack_otimer w) (script w) (log w).
Definition set_mask (m : gset signal) (w : world) : world :=
  mkWorld (fds w) (pipes w) (uid w) (gid w) (euid w) (egid w) (rlimit_nofile w)
    (actions w) m (real_timer w) (o_lock_all w) (vfd w) (osig w)
    (devnull_fd w) (stack_otimer w) (script w) (log w).
Definition set_real_timer (t : itimerval) (w : world) : world :=
  mkWorld (fds w) (pipes w) (uid w) (gid w) (euid w) (egid w) (rlimit_nofile w)
    (actions w) (mask w) t (o_lock_all w) (vfd w) (osig w)
    (devnull_fd w) (stack_otimer w) (script w) (log w).
Definition set_osig (m : gset signal) (w : world) : world :=
  mkWorld (fds w) (pipes w) (uid w) (gid w) (euid w) (egid w) (rlimit_nofile w)
    (actions w) (mask w) (real_timer w) (o_lock_all w) (vfd w) m
    (devnull_fd w) (stack_otimer w) (script w) (log w).
Definition set_devnull_fd (d : Z) (w : world) : world :=
  mkWorld (fds w) (pipes w) (uid w) (gid w) (euid w) (egid w) (rlimit_nofile w)
    (actions w) (mask w) (real_timer w) (o_lock_all w) (vfd w) (osig w)
    d (stack_otimer w) (script w) (log w).
Definition set_script (s : list reply) (w : world) : world :=
  mkWorld (fds w) (pipes w) (uid w) (gid w) (euid w) (egid w) (rlimit_nofile w)
    (actions w) (mask w) (real_timer w) (o_lock_all w) (vfd w) (osig w)
    (devnull_fd w) (stack_otimer w) s (log w).
Definition set_log (l : list event) (w : world) : world :=
  mkWorld (fds w) (pipes w) (uid w) (gid w) (euid w) (egid w) (rlimit_nofile w)
    (actions w) (mask w) (real_timer w) (o_lock_all w) (vfd w) (osig w)
    (devnull_fd w) (stack_otimer w) (script w) l.

(** ** Computations *)

(** How a piece of code ends: it returns a value, the process exits, the
    process image is replaced, the process runs the entry function of a
    child descriptor and exits with its value, or an indeterminate value
    was read. *)
Inductive result (A : Type) :=
  | Returned (a : A)
  | Exited (status : Z)
  | Execed (path : string) (argv : list string)
  | Called (f arg : nat)
  | Undefined.
Arguments Returned {A} _.
Arguments Exited {A} _.
Arguments Execed {A} _ _.
Arguments Called {A} _ _.
Arguments Undefined {A}.

Definition M (A : Type) : Type := world → result A * world.

Global Instance M_ret : MRet M := λ A a w, (Returned a, w).

Global Instance M_bind : MBind M := λ A B k m w,
  match m w with
  | (Returned a, w') => k a w'
  | (Exited s, w') => (Exited s, w')
  | (Execed p args, w') => (Execed p args, w')
  | (Called f arg, w') => (Called f arg, w')
  | (Undefined, w') => (Undefined, w')
  end.

Definition gets {A} (f : world → A) : M A := λ w, (Returned (f w), w).
Definition modify (f : world → world) : M unit := λ w, (Returned tt, f w).
Definition emit (e : event) : M unit := modify (λ w, set_log (log w ++ [e]) w).
Definition undefined {A} : M A := λ w, (Undefined, w).

(** Reading an automatic variable: indeterminate unless it was written. *)
Definition load {A} (x : option A) : M A :=
  match x with Some a => mret a | None => undefined end.

(** The [k]-th answer of the kernel from now; an exhausted script answers
    -1. *)
Definition reply_at (k : nat) (w : world) : reply :=
  nth k (script w) (mkReply (-1) (mkTimeval 0 0)).

(** Taking the next answer of the kernel. *)
Definition next_reply : M reply :=
  λ w, (Returned (reply_at 0 w), set_script (tail (script w)) w).

(** [for] over a list. *)
Fixpoint mfor {A} (l : list A) (body : A → M unit) : M unit :=
  match l with
  | [] => mret tt
  | x :: l' => body x;; mfor l' body
  end.

End Sys.

(** ** System calls *)

Module Syscall.
Import Sys.

(** [pipe]: on success two descriptors that were not open, the read end and
    the write end of a new pipe; [None] stands for the return value -1. *)
Definition pipe : M (option (Z * Z)) :=
  r ← next_reply;
  if decide (ret r < 0)%Z then emit (EPipe None);; mret None
  else
    m ← gets fds;
    k ← gets pipes;
    let rd := fresh (dom m) in
    let wr := fresh ({[rd]} ∪ dom m) in
    modify (set_fds (<[wr := PipeWrite k]> (<[rd := PipeRead k]> m)));;
    modify (set_pipes (S k));;
    emit (EPipe (Some (rd, wr)));;
    mret (Some (rd, wr)).

(** [fork]: negative on failure, 0 in the child, the child's pid in the
    parent.  The child starts with a copy of the state of the parent. *)
Definition fork : M Z :=
  r ← next_reply;
  emit (EFork (ret r));;
  mret (ret r).

(** [open("/dev/null", O_RDWR)]. *)
Definition open_dev_null : M Z :=
  r ← next_reply;
  if decide (ret r < 0)%Z then emit (EOpen "/dev/null" (-1));; mret (-1)%Z
  else
    m ← gets fds;
    let fd := fresh (dom m) in
    modify (set_fds (<[fd := DevNull]> m));;
    emit (EOpen "/dev/null" fd);;
    mret fd.

(** [dup2(oldfd, newfd)]: [newfd] is made to refer to what [oldfd] refers
    to. *)
Definition dup2 (oldfd newfd : Z) : M Z :=
  emit (EDup2 oldfd newfd);;
  m ← gets fds;
  match m !! oldfd with
  | None => mret (-1)%Z
  | Some f =>
      if decide (newfd < 0)%Z then mret (-1)%Z
      else modify (set_fds (<[newfd := f]> m));; mret newfd
  end.

Definition close (fd : Z) : M Z :=
  emit (EClose fd);;
  m ← gets fds;
  match m !! fd with
  | None => mret (-1)%Z
  | Some _ => modify (set_fds (delete fd m));; mret 0%Z
  end.

(** [getrlimit(RLIMIT_NOFILE, &r)]: the soft limit, when the call succeeds. *)
Definition getrlimit_nofile : M (option Z) := gets rlimit_nofile.

Definition getgid : M Z := gets gid.
Definition getuid : M Z := gets uid.
Definition setgid (g : Z) : M Z := emit (ESetgid g);; modify (set_egid g);; mret 0%Z.
Definition setuid (u : Z) : M Z := emit (ESetuid u);; modify (set_euid u);; mret 0%Z.

(** The process goes on as another program. *)
Definition replace_image {A} (path : string) (argv : list string) : M A :=
  λ w, (Execed path argv, w).

(** [execv] comes back only when it fails. *)
Definition execv (path : string) (argv : list string) : M Z :=
  r ← next_reply;
  emit (EExecv path argv (ret r));;
  if decide (ret r < 0)%Z then mret (-1)%Z
  else replace_image path argv.

(** [_exit(f(arg))] for an entry function [f] of the program. *)
Definition exit_with_call {A} (f arg : nat) : M A := λ w, (Called f arg, w).

Definition _exit {A} (status : Z) : M A := λ w, (Exited status, w).


(** [waitpid(pid, &status, options)].  Without [WNOHANG] the call blocks,
    and time passes on the real timer. *)
Definition waitpid (pid options : Z) : M Z :=
  r ← next_reply;
  (if decide (options = WNOHANG) then mret tt
   else
     t ← gets real_timer;
     modify (set_real_timer (mkItimerval (it_interval t) (timer_left r))));;
  emit (EWaitpid pid options (ret r));;
  mret (ret r).

(** [sigaction(sig, &act, &oldact)] returns the previous disposition; the
    disposition of SIGKILL cannot be changed. *)
Definition sigaction (sig : signal) (act : sigaction_t) : M sigaction_t :=
  old ← gets (λ w, actions w sig);
  emit (ESigaction sig act);;
  (if decide (sig = SIGKILL) then mret tt
   else
     a ← gets actions;
     modify (set_actions (λ s, if decide (s = sig) then act else a s)));;
  mret old.

(** [setitimer(ITIMER_REAL, &new, &old)]: the previous timer on success,
    [None] when the new value is rejected. *)
Definition setitimer (new : itimerval) : M (option itimerval) :=
  emit (ESetitimer new);;
  if itimerval_valid new then
    old ← gets real_timer;
    modify (set_real_timer new);;
    mret (Some old)
  else mret None.

(** [sigprocmask(SIG_SETMASK, NULL, &old)]. *)
Definition sigprocmask_get : M (gset signal) := gets mask.

(** [sigprocmask(SIG_SETMASK, &set, &old)]; SIGKILL is never blocked. *)
Definition sigprocmask_set (set : gset signal) : M (gset signal) :=
  old ← gets mask;
  emit (ESigprocmask set);;
  modify (set_mask (set ∖ {[SIGKILL]}));;
  mret old.

(** [ioctl]; the callers drop its return value. *)
Definition ioctl (fd : Z) (request : ioctl_request) (arg : Z) : M Z :=
  emit (EIoctl fd request arg);; mret 0%Z.

End Syscall.

(** * Child processes ([src/process.c]) *)

Module Process.
Import Sys Syscall.

(** Modelled from the spec: [process.h] is not among the sources.  Per the
    data model each of stdin/stdout/stderr is one of no-redirect, pipe,
    redirect-to-null or redirect-to-fd; the C field is an [int] holding
    either one of three marker constants or a descriptor. *)
Inductive redirect :=
  | NO_REDIRECT | REDIRECT_DEV_NULL | REDIRECT_PIPE | Fd (fd : Z).

Global Instance redirect_eq_dec : EqDecision redirect.
Proof. solve_decision. Defined.

(** Modelled from the spec: [struct child_process] of [process.h], with the
    fields that [create_child] uses. *)
Record child_process := mkChild {
  pid : Z;
  stdin_fd : redirect;
  stdout_fd : redirect;
  stderr_fd : redirect;
  function : option nat;
  argument : nat;
  path : string;
  argv : list string;
}.

Definition set_pid (p : Z) (c : child_process) : child_process :=
  mkChild p (stdin_fd c) (stdout_fd c) (stderr_fd c) (function c) (argument c)
    (path c) (argv c).
Definition set_stdin_fd (r : redirect) (c : child_process) : child_process :=
  mkChild (pid c) r (stdout_fd c) (stderr_fd c) (function c) (argument c)
    (path c) (argv c).
Definition set_stdout_fd (r : redirect) (c : child_process) : child_process :=
  mkChild (pid c) (stdin_fd c) r (stderr_fd c) (function c) (argument c)
    (path c) (argv c).
Definition set_stderr_fd (r : redirect) (c : child_process) : child_process :=
  mkChild (pid c) (stdin_fd c) (stdout_fd c) r (function c) (argument c)
    (path c) (argv c).

(** The handler [ignore_sigalarm] does nothing. *)
Definition ignore_sigalarm (signum : Z) : M unit := mret tt.

(** [wait_for_death]. *)
Definition wait_for_death (pid sec usec : Z) : M bool :=
  let act := mkSigaction (Handler fn_ignore_sigalarm) ∅ 0 in
  oldact ← sigaction SIGALRM act;
  let timer := mkItimerval (mkTimeval 0 0) (mkTimeval sec usec) in
  (* struct itimerval otimer is not initialised; only a call of setitimer
     that succeeds writes the previous timer to it *)
  otimer ← gets stack_otimer;
  saved ← setitimer timer;
  let otimer := default otimer saved in
  r ← waitpid pid 0;
  let result := bool_decide (r = pid) in
  setitimer otimer;;
  sigaction SIGALRM oldact;;
  mret result.


(** [close_all_fds]. *)
Definition close_all_fds : M unit :=
  r ← getrlimit_nofile;
  let maxfd := match r with Some cur => cur | None => 1024%Z end in
  mfor (seqZ 0 maxfd) (λ i,
    if decide (i = STDIN_FILENO ∨ i = STDOUT_FILENO ∨ i = STDERR_FILENO)
    then mret tt
    else close i;; mret tt).

(** [open_devnull]. *)
Definition open_devnull : M Z :=
  d ← gets devnull_fd;
  (if decide (d < 0)%Z then
     d' ← open_dev_null;
     modify (set_devnull_fd d')
   else mret tt);;
  gets devnull_fd.

(** The redirection of one stream in the child branch of [create_child]
    (lines 170-175, 177-182 and 184-189): [end_of] picks the end of the
    stream's pipe that the source names. *)
Definition child_redirect (mode : redirect) (pipe_fds : option (Z * Z))
    (end_of : Z * Z → Z) : M unit :=
  match mode with
  | REDIRECT_PIPE => p ← load pipe_fds; dup2 STDIN_FILENO (end_of p);; mret tt
  | REDIRECT_DEV_NULL => d ← open_devnull; dup2 STDIN_FILENO d;; mret tt
  | NO_REDIRECT => mret tt
  | Fd fd => dup2 STDIN_FILENO fd;; mret tt
  end.

(** The child branch of [create_child] (lines 168-203); it does not
    return. *)
Definition create_child_child (child : child_process)
    (stdin_pipe stdout_pipe stderr_pipe : option (Z * Z))
  : M (bool * child_process) :=
  child_redirect (stdin_fd child) stdin_pipe fst;;
  child_redirect (stdout_fd child) stdout_pipe snd;;
  child_redirect (stderr_fd child) stderr_pipe snd;;
  close_all_fds;;
  g ← getgid; setgid g;;
  u ← getuid; setuid u;;
  match function child with
  | Some f => exit_with_call f (argument child)
  | None => execv (path child) (argv child);; _exit 1
  end.

(** Closing both ends of a pipe that was asked for. *)
Definition close_pipe (mode : redirect) (pipe_fds : option (Z * Z)) : M unit :=
  if decide (mode = REDIRECT_PIPE) then
    p ← load pipe_fds;
    close (fst p);;
    close (snd p);;
    mret tt
  else mret tt.

(** The exits of [create_child] through its labels. *)
Definition stdout_pipe_failed (child : child_process)
    (stdin_pipe : option (Z * Z)) : M (bool * child_process) :=
  close_pipe (stdin_fd child) stdin_pipe;;
  mret (false, child).

Definition stderr_pipe_failed (child : child_process)
    (stdin_pipe stdout_pipe : option (Z * Z)) : M (bool * child_process) :=
  close_pipe (stdout_fd child) stdout_pipe;;
  stdout_pipe_failed child stdin_pipe.

Definition fork_failed (child : child_process)
    (stdin_pipe stdout_pipe stderr_pipe : option (Z * Z))
  : M (bool * child_process) :=
  close_pipe (stderr_fd child) stderr_pipe;;
  stderr_pipe_failed child stdin_pipe stdout_pipe.

(** The parent's side after a successful [fork] (lines 208-229). *)
Definition create_child_parent (child : child_process)
    (stdin_pipe stdout_pipe stderr_pipe : option (Z * Z))
  : M (bool * child_process) :=
  child ← (if decide (stdin_fd child = REDIRECT_PIPE) then
             p ← load stdin_pipe;
             close (fst p);;
             mret (set_stdin_fd (Fd (snd p)) child)
           else mret child);
  child ← (if decide (stdout_fd child = REDIRECT_PIPE) then
             p ← load stdout_pipe;
             close (snd p);;
             mret (set_stdout_fd (Fd (fst p)) child)
           else mret child);
  child ← (if decide (stderr_fd child = REDIRECT_PIPE) then
             p ← load stderr_pipe;
             close (snd p);;
             mret (set_stderr_fd (Fd (fst p)) child)
           else mret child);
  mret (true, child).

(** [create_child] from the call of [fork] on (lines 166-229). *)
Definition create_child_fork (child : child_process)
    (stdin_pipe stdout_pipe stderr_pipe : option (Z * Z))
  : M (bool * child_process) :=
  p ← fork;
  let child := set_pid p child in
  if decide (p = 0)%Z then
    create_child_child child stdin_pipe stdout_pipe stderr_pipe
  else if decide (p < 0)%Z then
    fork_failed child stdin_pipe stdout_pipe stderr_pipe
  else create_child_parent child stdin_pipe stdout_pipe stderr_pipe.

(** [create_child] from the pipe of stderr on (lines 161-164). *)
Definition create_child_stderr (child : child_process)
    (stdin_pipe stdout_pipe : option (Z * Z)) : M (bool * child_process) :=
  if decide (stderr_fd child = REDIRECT_PIPE) then
    stderr_pipe ← pipe;
    match stderr_pipe with
    | None => stderr_pipe_failed child stdin_pipe stdout_pipe
    | Some _ => create_child_fork child stdin_pipe stdout_pipe stderr_pipe
    end
  else create_child_fork child stdin_pipe stdout_pipe None.

(** [create_child] from the pipe of stdout on (lines 156-159). *)
Definition create_child_stdout (child : child_process)
    (stdin_pipe : option (Z * Z)) : M (bool * child_process) :=
  if decide (stdout_fd child = REDIRECT_PIPE) then
    stdout_pipe ← pipe;
    match stdout_pipe with
    | None => stdout_pipe_failed child stdin_pipe
    | Some _ => create_child_stderr child stdin_pipe stdout_pipe
    end
  else create_child_stderr child stdin_pipe None.

(** [create_child]: the returned flag and the descriptor as the callee
    leaves it.  The arrays [stdin_pipe], [stdout_pipe] and [stderr_pipe]
    hold descriptors only once [pipe] has filled them. *)
Definition create_child (child : child_process) : M (bool * child_process) :=
  if decide (stdin_fd child = REDIRECT_PIPE) then
    stdin_pipe ← pipe;
    match stdin_pipe with
    | None => mret (false, child)
    | Some _ => create_child_stdout child stdin_pipe
    end
  else create_child_stdout child None.

End Process.

(** * Signal handling ([signals.c]) *)

Module Signals.
Import Sys Syscall.

(** [release_vt]: called when the user tries to switch consoles. *)
Definition release_vt (signo : Z) : M unit :=
  lock_all ← gets o_lock_all;
  fd ← gets vfd;
  if decide (lock_all = 0)%Z then
    ioctl fd VT_RELDISP 1;; mret tt   (* kernel is allowed to switch *)
  else
    ioctl fd VT_RELDISP 0;; mret tt.  (* kernel is not allowed to switch *)

(** [acquire_vt]: called when the user switches to the console. *)
Definition acquire_vt (signo : Z) : M unit :=
  fd ← gets vfd;
  ioctl fd VT_RELDISP VT_ACKACQ;; mret tt.

(** [signal_ignorer]. *)
Definition signal_ignorer (signo : Z) : M unit := mret tt.

(** Modelled from the spec: [restore_terminal] is declared in [vlock.h] and
    defined outside the sources; per the spec the "terminal
    display/attributes are restored".  The call is recorded. *)
Definition restore_terminal : M unit := emit ERestoreTerminal.

(** [exit]. *)
Definition exit {A} (status : Z) : M A := λ w, (Exited status, w).

(** [signal_die]: the handler of SIGCHLD. *)
Definition signal_die (signo : Z) : M unit :=
  r ← waitpid (-1) WNOHANG;
  if decide (r ≠ 0)%Z then
    restore_terminal;;
    exit 0
  else mret tt.

(** [mask_signals]. *)
Definition mask_signals : M unit :=
  sig ← sigprocmask_get;
  let sig := sig ∖ {[SIGUSR1]} in
  let sig := sig ∖ {[SIGUSR2]} in
  let sig := sig ∪ {[SIGTSTP]} in
  let sig := sig ∪ {[SIGTTIN]} in
  let sig := sig ∪ {[SIGTTOU]} in
  let sig := sig ∪ {[SIGHUP]} in
  let sig := sig ∖ {[SIGCHLD]} in
  old ← sigprocmask_set sig;
  modify (set_osig old);;
  sigaction SIGUSR1 (mkSigaction (Handler fn_release_vt) ∅ 0);;
  sigaction SIGUSR2 (mkSigaction (Handler fn_acquire_vt) ∅ 0);;
  sigaction SIGTSTP (mkSigaction (Handler fn_signal_ignorer) ∅ 0);;
  sigaction SIGTTIN (mkSigaction (Handler fn_signal_ignorer) ∅ 0);;
  sigaction SIGTTOU (mkSigaction (Handler fn_signal_ignorer) ∅ 0);;
  sigaction SIGHUP (mkSigaction (Handler fn_signal_ignorer) ∅ 0);;
  sigaction SIGCHLD (mkSigaction (Handler fn_signal_die) ∅ 0);;
  mret tt.

(** [ignore_sigchld]. *)
Definition ignore_sigchld : M unit :=
  sigaction SIGCHLD (mkSigaction (Handler fn_signal_ignorer) ∅ 0);;
  mret tt.

(** [restore_signals]. *)
Definition restore_signals : M unit :=
  old ← gets osig;
  sigprocmask_set old;;
  mret tt.

(** The code behind the handlers of the program; [fn_other] stands for
    functions of other files. *)
Definition handler_code (f : fnptr) : option (Z → M unit) :=
  match f with
  | fn_ignore_sigalarm => Some Process.ignore_sigalarm
  | fn_release_vt => Some release_vt
  | fn_acquire_vt => Some acquire_vt
  | fn_signal_ignorer => Some signal_ignorer
  | fn_signal_die => Some signal_die
  | fn_other _ => None
  end.

End Signals.

(** * Notions used by the properties *)

Import Tsort Sys Syscall Process Signals.

(** ** Graphs *)

Section graph.
Context {T : Type}.

(** [a] is joined to [b] by an edge of the list. *)
Definition edge_rel (edges : list (Tsort.Edge T)) : relation T :=
  λ a b, ∃ e, e ∈ edges ∧ Tsort.predecessor e = a ∧ Tsort.successor e = b.

(** No node reaches itself along one or more edges. *)
Definition acyclic (edges : list (Tsort.Edge T)) : Prop :=
  ∀ a, ¬ tc (edge_rel edges) a a.

(** Both ends of every edge are listed nodes. *)
Definition edges_closed (nodes : list T) (edges : list (Tsort.Edge T)) : Prop :=
  ∀ e, e ∈ edges → Tsort.predecessor e ∈ nodes ∧ Tsort.successor e ∈ nodes.

End graph.

(** ** States, calls and failures of the process code *)

(** A process with the console on descriptors 0 to 2, nothing blocked, the
    default dispositions, and a kernel that gives the listed answers. *)
Definition world0 (answers : list Z) : world :=
  mkWorld
    (<[2%Z := OtherFile "/dev/tty1"]>
       (<[1%Z := OtherFile "/dev/tty1"]> (<[0%Z := OtherFile "/dev/tty1"]> ∅)))
    0 1000 1000 0 0 (Some 16%Z)
    (λ _, mkSigaction SIG_DFL ∅ 0) ∅
    (mkItimerval (mkTimeval 0 0) (mkTimeval 0 0))
    0 0 ∅ (-1)
    (mkItimerval (mkTimeval 0 0) (mkTimeval 7 0))
    ((λ r, mkReply r (mkTimeval 0 0)) <$> answers) [].

(** The calls that [wait_for_death pid sec usec] makes when the previous
    disposition of SIGALRM is [oldact], the previous timer [otimer], and the
    wait returns [r]. *)
Definition wait_for_death_calls (pid sec usec r : Z) (oldact : sigaction_t)
    (otimer : itimerval) : list event :=
  [ESigaction SIGALRM (mkSigaction (Handler fn_ignore_sigalarm) ∅ 0);
   ESetitimer (mkItimerval (mkTimeval 0 0) (mkTimeval sec usec));
   EWaitpid pid 0 r;
   ESetitimer otimer;
   ESigaction SIGALRM oldact].

(** A call that reports that the launch cannot go on: [pipe] returning -1
    or [fork] returning a negative pid. *)
Definition launch_failure (e : event) : Prop :=
  match e with
  | EPipe None => True
  | EFork r => (r < 0)%Z
  | _ => False
  end.

(** The descriptor table [m'] is [m] with, when [mode] asks for a pipe, the
    two ends held in [pipe_fds] added. *)
Definition pipe_open (mode : redirect) (pipe_fds : option (Z * Z))
    (m m' : gmap Z file) : Prop :=
  if decide (mode = REDIRECT_PIPE) then
    ∃ rd wr k, pipe_fds = Some (rd, wr) ∧
      m !! rd = None ∧ m !! wr = None ∧ rd ≠ wr ∧
      m' = <[wr := PipeWrite k]> (<[rd := PipeRead k]> m)
  else m' = m.

(** The same with the number of the pipe named: [n] is the number of
    pipes that the process had created before this one. *)
Definition pipe_open_at (n : nat) (mode : redirect)
    (pipe_fds : option (Z * Z)) (m m' : gmap Z file) : Prop :=
  if decide (mode = REDIRECT_PIPE) then
    ∃ rd wr, pipe_fds = Some (rd, wr) ∧
      m !! rd = None ∧ m !! wr = None ∧ rd ≠ wr ∧
      m' = <[wr := PipeWrite n]> (<[rd := PipeRead n]> m)
  else m' = m.

(** The number of pipes that a stream asks for. *)
Definition pipe_count (mode : redirect) : nat :=
  if decide (mode = REDIRECT_PIPE) then 1 else 0.

(** A computation that makes no call reporting a launch failure. *)
Definition quiet {A} (m : M A) : Prop :=
  ∀ w, ∃ evs, log (m w).2 = log w ++ evs ∧ Forall (λ e, ¬ launch_failure e) evs.

(** The two ways a stretch of [create_child] that starts in [w] can end:
    without a failing call, or by returning false with the descriptor
    table [m0] and the redirection modes of [child]. *)
Definition clean_or_quiet (child : child_process) (m0 : gmap Z file)
    (w : world) (r : result (bool * child_process) * world) : Prop :=
  ∃ evs, log r.2 = log w ++ evs ∧
    (Forall (λ e, ¬ launch_failure e) evs ∨
     ∃ child', r.1 = Returned (false, child') ∧ fds r.2 = m0 ∧
       stdin_fd child' = stdin_fd child ∧
       stdout_fd child' = stdout_fd child ∧
       stderr_fd child' = stderr_fd child).

(** A child with a pipe on each of its three streams. *)
Definition child_pipes : child_process :=
  mkChild 0 REDIRECT_PIPE REDIRECT_PIPE REDIRECT_PIPE None 0
    "/sbin/vlock-auth" ["vlock-auth"].

(** The calls of [dup2] in a log, as pairs (oldfd, newfd). *)
Definition dup2_calls (l : list event) : list (Z * Z) :=
  omap (λ e, match e with EDup2 o n => Some (o, n) | _ => None end) l.

(** ** Tactics *)

(** Reading a field of a state that was written. *)
Ltac world_simpl :=
  cbn [fds pipes uid gid euid egid rlimit_nofile actions mask real_timer
       o_lock_all vfd osig devnull_fd stack_otimer script log
       set_fds set_pipes set_euid set_egid set_actions set_mask
       set_real_timer set_osig set_devnull_fd set_script set_log] in *.

(** A lookup in a descriptor table built by opening and closing. *)
Ltac solve_fd_lookup :=
  rewrite ?lookup_delete, ?lookup_insert;
  repeat case_decide; simplify_eq; try done; try tauto; try congruence.

(** Membership in a short list of descriptors. *)
Ltac solve_fd_elem :=
  rewrite ?elem_of_cons, ?elem_of_nil; unfold not; intros;
  repeat match goal with
    | H : _ ∨ _ |- _ => destruct H
    | H : False |- _ => destruct H
    end;
  subst; try done; try congruence.

(** Membership in a mask built with [sigaddset] and [sigdelset]. *)
Ltac solve_mask :=
  repeat (rewrite elem_of_difference || rewrite elem_of_union
          || rewrite elem_of_singleton);
  intuition congruence.

(** ** Further notions for the process and signal code *)

(** The part of the state that is neither the descriptor table, nor the
    dispositions, nor the log. *)
Definition rest_of (w : world) :=
  (pipes w, uid w, gid w, euid w, egid w, rlimit_nofile w, mask w,
   real_timer w, o_lock_all w, vfd w, osig w, devnull_fd w, stack_otimer w,
   script w).

(** The bound that [close_all_fds] uses. *)
Definition nofile_limit (w : world) : Z :=
  match rlimit_nofile w with Some cur => cur | None => 1024%Z end.

(** Descriptors 0, 1 and 2. *)
Definition is_std (fd : Z) : Prop :=
  fd = STDIN_FILENO ∨ fd = STDOUT_FILENO ∨ fd = STDERR_FILENO.

(** The descriptor that a stream asked for as a pipe holds after a
    successful launch. *)
Definition pipe_fd (mode field : redirect) : list Z :=
  match mode, field with
  | REDIRECT_PIPE, Fd k => [k]
  | _, _ => []
  end.

(** The descriptors that [create_child] hands to its caller: [child] is the
    descriptor as passed, [child'] as left. *)
Definition parent_fds (child child' : child_process) : list Z :=
  pipe_fd (stdin_fd child) (stdin_fd child') ++
  pipe_fd (stdout_fd child) (stdout_fd child') ++
  pipe_fd (stderr_fd child) (stderr_fd child').

(** After a successful launch a stream that asked for a pipe holds an open
    descriptor of the parent's end of pipe number [n], the write end for
    stdin and the read end for stdout and stderr; any other stream holds
    what it held. *)
Definition parent_end (write_end : bool) (mode field : redirect)
    (m : gmap Z file) (n : nat) : Prop :=
  if decide (mode = REDIRECT_PIPE) then
    ∃ k, field = Fd k ∧
         m !! k = Some (if write_end then PipeWrite n else PipeRead n)
  else field = mode.

(** How the child branch of [create_child] can end for [child]. *)
Definition child_end (child : child_process)
    (r : result (bool * child_process)) : Prop :=
  match function child with
  | Some f => r = Called f (argument child)
  | None => r = Execed (path child) (argv child) ∨ r = Exited 1
  end.

(** What the caller of [create_child] holds after a successful launch:
    [child] is the descriptor as passed, [m0] the descriptor table and
    [n0] the number of pipes created before the call, [child'] and [m']
    are the descriptor and the table after it.  The call creates its pipes
    in the order stdin, stdout, stderr, so the pipe of stdin is number
    [n0], and the pipe of a later stream is numbered behind the pipes of
    the streams before it. *)
Definition launched (child child' : child_process) (n0 : nat)
    (m0 m' : gmap Z file) : Prop :=
  (0 < pid child')%Z ∧
  parent_end true (stdin_fd child) (stdin_fd child') m' n0 ∧
  parent_end false (stdout_fd child) (stdout_fd child') m'
    (n0 + pipe_count (stdin_fd child)) ∧
  parent_end false (stderr_fd child) (stderr_fd child') m'
    (n0 + pipe_count (stdin_fd child) + pipe_count (stdout_fd child)) ∧
  NoDup (parent_fds child child') ∧
  (∀ k, k ∈ parent_fds child child' → m0 !! k = None) ∧
  (∀ k, k ∉ parent_fds child child' → m' !! k = m0 !! k).

(** The state in which the child branch of [create_child] ends.  For a
    descriptor without an entry function the last call is [execv] of the
    descriptor's program, and its answer decides the ending: a negative
    one [_exit(1)], any other the new program. *)
Definition child_done (child : child_process)
    (rw : result (bool * child_process) * world) : Prop :=
  child_end child rw.1 ∧
  (function child = None →
   ∃ a, last (log rw.2) = Some (EExecv (path child) (argv child) a) ∧
        rw.1 = if decide (a < 0)%Z then Exited 1
               else Execed (path child) (argv child)) ∧
  (∀ k, (0 ≤ k < nofile_limit rw.2)%Z → ¬ is_std k → fds rw.2 !! k = None) ∧
  euid rw.2 = uid rw.2 ∧ egid rw.2 = gid rw.2.

(** The three ways [create_child] can end. *)
Definition launch_outcome (child : child_process) (n0 : nat)
    (m0 : gmap Z file) (rw : result (bool * child_process) * world) : Prop :=
  (∃ child', rw.1 = Returned (false, child')) ∨
  (∃ child', rw.1 = Returned (true, child') ∧
             launched child child' n0 m0 (fds rw.2)) ∨
  child_done child rw.

(** The handler that [mask_signals] installs for a signal, if any. *)
Definition installed_handler (s : signal) : option fnptr :=
  match s with
  | SIGUSR1 => Some fn_release_vt
  | SIGUSR2 => Some fn_acquire_vt
  | SIGTSTP | SIGTTIN | SIGTTOU | SIGHUP => Some fn_signal_ignorer
  | SIGCHLD => Some fn_signal_die
  | SIGKILL | SIGALRM | SIGTERM | SIGCONT => None
  end.

(** Descriptors 0, 1 and 2 are open, and the descriptor that
    [open_devnull] keeps is none of them. *)
Definition std_open (w : world) : Prop :=
  (∀ k, is_std k → is_Some (fds w !! k)) ∧ ¬ is_std (devnull_fd w).

(** The stream does not name descriptor 1 or 2 as its target. *)
Definition off_std (mode : redirect) : Prop :=
  mode ≠ Fd STDOUT_FILENO ∧ mode ≠ Fd STDERR_FILENO.

(** [create_child] returns, or descriptors 0, 1 and 2 are as in [m0]. *)
Definition std_outcome (m0 : gmap Z file)
    (rw : result (bool * child_process) * world) : Prop :=
  (∃ x, rw.1 = Returned x) ∨ (∀ k, is_std k → fds rw.2 !! k = m0 !! k).

(** * Proofs: topological sorter *)

Section tsort_facts.
Context {T : Type} `{EqDecision T}.
Implicit Types (n s zero : T) (e : Edge T) (E edges : list (Edge T)).
Implicit Types (Z S nodes : list T).

Lemma is_zero_true n E :
  is_zero n E = true ↔ ∀ e, e ∈ E → successor e ≠ n.
Proof.
  induction E as [|e E IH]; simpl.
  - split; [intros _ e He; inversion He | done].
  - destruct (decide (successor e = n)) as [Heq|Hne].
    + split; [done|]. intros H. exfalso. apply (H e); [left | done].
    + rewrite IH. split.
      * intros H e' He'. apply elem_of_cons in He' as [->|He']; auto.
      * intros H e' He'. apply H. by right.
Qed.

Lemma is_zero_false n E :
  is_zero n E = false ↔ ∃ e, e ∈ E ∧ successor e = n.
Proof.
  induction E as [|e E IH]; simpl.
  - split; [done | intros (e & He & _); inversion He].
  - destruct (decide (successor e = n)) as [Heq|Hne].
    + split; [|done]. intros _. exists e. split; [left | done].
    + rewrite IH. split.
      * intros (e' & He' & Hs). exists e'. split; [by right | done].
      * intros (e' & He' & Hs). apply elem_of_cons in He' as [->|He'];
          [done | by exists e'].
Qed.

Lemma elem_of_list_remove x y Z : y ∈ list_remove x Z ↔ y ∈ Z ∧ y ≠ x.
Proof.
  induction Z as [|z Z IH]; simpl.
  - split; [intros H; inversion H | intros [H _]; inversion H].
  - destruct (decide (z = x)) as [->|Hne].
    + rewrite IH, elem_of_cons. intuition congruence.
    + rewrite !elem_of_cons, IH. intuition congruence.
Qed.

Lemma list_remove_filter x Z : list_remove x Z = filter (λ y, y ≠ x) Z.
Proof.
  induction Z as [|z Z IH]; simpl; [done|].
  rewrite filter_cons. destruct (decide (z = x)) as [->|Hne].
  - by rewrite decide_False by auto.
  - by rewrite decide_True, IH by auto.
Qed.

(** [get_zeros] keeps, in their order, the nodes that no edge enters. *)
Lemma get_zeros_filter nodes edges :
  get_zeros nodes edges = filter (λ n, is_zero n edges = true) nodes.
Proof.
  unfold get_zeros. revert nodes.
  induction edges as [|e es IH]; intros nodes; simpl.
  - induction nodes as [|n nodes IHn]; [done|].
    by rewrite filter_cons, decide_True, <-IHn by done.
  - destruct nodes as [|z nodes]; [done|].
    rewrite IH, list_remove_filter.
    generalize (z :: nodes). clear. intros l.
    induction l as [|n l IHl]; [done|].
    rewrite !filter_cons.
    destruct (decide (successor e = n)) as [Heq|Hne].
    + rewrite decide_False by (intros H; by apply H). done.
    + rewrite (decide_True (P := n ≠ successor e)) by auto.
      rewrite !filter_cons, IHl. done.
Qed.

(** A scan comes to its end exactly when no edge leaves [zero]. *)
Lemma tsort_scan_Some zero E :
  tsort_scan zero E = Some tt ↔ ∀ e, e ∈ E → predecessor e ≠ zero.
Proof.
  induction E as [|e E IH]; simpl.
  - split; [intros _ e He; inversion He | done].
  - destruct (decide (predecessor e = zero)) as [Heq|Hne].
    + split; [done|]. intros H. exfalso. apply (H e); [left | done].
    + rewrite IH. split.
      * intros H e' He'. apply elem_of_cons in He' as [->|He']; auto.
      * intros H e' He'. apply H. by right.
Qed.

Lemma tsort_scan_None zero E :
  tsort_scan zero E = None ↔ ∃ e, e ∈ E ∧ predecessor e = zero.
Proof.
  induction E as [|e E IH]; simpl.
  - split; [done | intros (e & He & _); inversion He].
  - destruct (decide (predecessor e = zero)) as [Heq|Hne].
    + split; [|done]. intros _. exists e. split; [left | done].
    + rewrite IH. split.
      * intros (e' & He' & Hp). exists e'. split; [by right | done].
      * intros (e' & He' & Hp). apply elem_of_cons in He' as [->|He'];
          [done | by exists e'].
Qed.

(** The outer loop on a queue none of whose nodes an edge leaves. *)
Lemma tsort_loop_Some Z S E :
  (∀ z e, z ∈ Z → e ∈ E → predecessor e ≠ z) →
  tsort_loop Z S E = Some (S ++ Z, E).
Proof.
  revert S. induction Z as [|z Z IH]; intros S HZ; simpl.
  - by rewrite app_nil_r.
  - assert (tsort_scan z E = Some tt) as ->.
    { apply tsort_scan_Some. intros e He. apply HZ; [left | done]. }
    rewrite IH, <-app_assoc; [done|].
    intros z' e Hz' He. apply HZ; [by right | done].
Qed.

(** What the outer loop leaves when it ends. *)
Lemma tsort_loop_result Z S E S' E' :
  tsort_loop Z S E = Some (S', E') → S' = S ++ Z ∧ E' = E.
Proof.
  revert S. induction Z as [|z Z IH]; intros S; simpl.
  - intros [= <- <-]. by rewrite app_nil_r.
  - destruct (tsort_scan z E); [|done].
    intros [-> ->]%IH. by rewrite <-app_assoc.
Qed.

(** The outer loop on a queue with a node that an edge leaves. *)
Lemma tsort_loop_None Z S E z e :
  z ∈ Z → e ∈ E → predecessor e = z → tsort_loop Z S E = None.
Proof.
  revert S. induction Z as [|z' Z IH]; intros S Hz He Hp; simpl.
  - inversion Hz.
  - destruct (tsort_scan z' E) as [[]|] eqn:Hscan; [|done].
    apply elem_of_cons in Hz as [->|Hz]; [|by apply IH].
    apply tsort_scan_Some with (e := e) in Hscan; done.
Qed.

(** [tsort] where no edge leaves a node of the first queue. *)
Lemma tsort_defined nodes edges :
  (∀ e, e ∈ edges → predecessor e ∉ get_zeros nodes edges) →
  tsort nodes edges = Some (list_empty edges, nodes, edges).
Proof.
  intros Hz. unfold tsort. rewrite tsort_loop_Some.
  - by destruct edges.
  - intros z e Hin He Hp. apply (Hz e He). by rewrite Hp.
Qed.

(** [tsort] where an edge leaves a node of the first queue. *)
Lemma tsort_undefined nodes edges e :
  e ∈ edges → predecessor e ∈ get_zeros nodes edges →
  tsort nodes edges = None.
Proof.
  intros He Hp. unfold tsort.
  by rewrite (tsort_loop_None _ _ _ (predecessor e) e).
Qed.

(** C10. With an empty edge list [tsort] returns true and the node sequence
    on return is the input sequence, in the same order. *)
Theorem tsort_no_edges nodes : tsort nodes [] = Some (true, nodes, []).
Proof.
  rewrite tsort_defined; [done|]. intros e He. inversion He.
Qed.

(** A graph without cycles has, behind every node, a node that no edge
    enters. *)
Lemma acyclic_source edges :
  acyclic edges →
  ∀ x, ∃ y, rtc (edge_rel edges) y x ∧ is_zero y edges = true.
Proof.
  induction edges as [|e E IH]; intros Hac x.
  - by exists x.
  - assert (Hsub : ∀ a b, edge_rel E a b → edge_rel (e :: E) a b).
    { intros a b (e' & He' & Ha & Hb). exists e'. split; [by right | done]. }
    assert (Hac' : acyclic E).
    { intros a Ha. apply (Hac a).
      by apply (tc_congruence (λ n : T, n) (edge_rel (e :: E))) in Ha. }
    assert (Hlift : ∀ a b, rtc (edge_rel E) a b → rtc (edge_rel (e :: E)) a b).
    { intros a b. by apply (rtc_congruence (λ n : T, n) (edge_rel (e :: E))). }
    assert (He : edge_rel (e :: E) (predecessor e) (successor e)).
    { exists e. split; [left | done]. }
    destruct (IH Hac' x) as (y & Hyx & Hy).
    destruct (decide (successor e = y)) as [Hey|Hey].
    + destruct (IH Hac' (predecessor e)) as (y' & Hy'p & Hy').
      destruct (decide (successor e = y')) as [Hey'|Hey'].
      * exfalso. apply (Hac (predecessor e)).
        eapply tc_rtc_r; [by apply tc_once|]. rewrite Hey'. by apply Hlift.
      * exists y'. split; [|simpl; by rewrite decide_False].
        eapply rtc_trans; [by apply Hlift|].
        eapply rtc_l; [exact He|]. rewrite Hey. by apply Hlift.
    + exists y. split; [by apply Hlift|]. simpl. by rewrite decide_False.
Qed.

(** A ranking that grows along every edge rules cycles out. *)
Lemma acyclic_rank (rank : T → nat) edges :
  (∀ e, e ∈ edges → rank (predecessor e) < rank (successor e)) →
  acyclic edges.
Proof.
  intros Hrank a Ha.
  assert (Hlt : ∀ x y, tc (edge_rel edges) x y → rank x < rank y).
  { intros x y Hxy. induction Hxy as [x y (e & He & <- & <-)
                                     |x y z (e & He & <- & <-) _ IH].
    - by apply Hrank.
    - specialize (Hrank e He). lia. }
  apply Hlt in Ha. lia.
Qed.

(** C1. On a graph without cycles whose edges name listed nodes only, and
    which has an edge at all, [tsort] does not sort: some listed node that
    no edge enters has an edge that leaves it, the inner loop removes that
    edge and then uses the iterator that the removal invalidated, and the
    run is undefined.  The claim has [tsort] return true with the nodes
    sorted and the edge list empty. *)
Theorem tsort_acyclic_undefined nodes edges :
  acyclic edges → edges_closed nodes edges → edges ≠ [] →
  tsort nodes edges = None.
Proof.
  intros Hac Hclosed Hne.
  destruct edges as [|e0 E]; [done|]. set (edges := e0 :: E) in *.
  destruct (acyclic_source edges Hac (predecessor e0)) as (y & Hy & Hzero).
  assert (∃ e, e ∈ edges ∧ predecessor e = y) as (e & He & Hp).
  { inversion Hy as [|? z ? (e & He & Hp & _) _]; subst.
    - exists e0. split; [left | done].
    - by exists e. }
  apply (tsort_undefined nodes edges e He).
  rewrite get_zeros_filter, list_elem_of_filter, Hp. split; [done|].
  rewrite <-Hp. by apply Hclosed.
Qed.

End tsort_facts.

(** The graph 3 -> 1 -> 2 over the nodes [1; 2; 3]. *)
Lemma tsort_acyclic_undefined_witness :
  tsort [1; 2; 3] [mkEdge 1 2; mkEdge 3 1] = None.
Proof.
  apply (tsort_acyclic_undefined [1; 2; 3] [mkEdge 1 2; mkEdge 3 1]).
  - apply (acyclic_rank (λ n, match n with 3 => 0 | 1 => 1 | _ => 2 end)).
    intros e He. repeat (apply elem_of_cons in He as [->|He]); simpl; try lia.
    by apply elem_of_nil in He.
  - intros e He. repeat (apply elem_of_cons in He as [->|He]); simpl.
    + split; repeat constructor.
    + split; repeat constructor.
    + by apply elem_of_nil in He.
  - done.
Defined.

(** The smallest graph with an edge. *)
Example tsort_one_edge : tsort [1; 2] [mkEdge 1 2] = None.
Proof. reflexivity. Qed.

(** An edge that leaves a node that is not listed: no listed node without
    an entering edge has an edge that leaves it, the edge stays, and the
    sort fails. *)
Example tsort_missing_predecessor :
  tsort [2] [mkEdge 1 2] = Some (false, [2], [mkEdge 1 2]).
Proof. reflexivity. Qed.

(** A cycle on its own: every listed node is entered by an edge, the outer
    loop is never entered, and the sort fails with everything left. *)
Example tsort_cycle :
  tsort [1; 2] [mkEdge 1 2; mkEdge 2 1]
  = Some (false, [1; 2], [mkEdge 1 2; mkEdge 2 1]).
Proof. reflexivity. Qed.

(** A cycle behind a listed node that no edge enters: the run is undefined
    at the edge that leaves that node. *)
Example tsort_cycle_behind_source :
  tsort [1; 2; 3] [mkEdge 1 2; mkEdge 2 3; mkEdge 3 2] = None.
Proof. reflexivity. Qed.

(** C2. A graph whose only flaw is an edge into a node that is not listed:
    node 1 is listed and no edge enters it, the inner loop removes the edge
    that leaves it and then uses the invalidated iterator, and the run is
    undefined, where the claim (and the header comment of [tsort.h]) has
    [tsort] return false and leave the edge. *)
Theorem tsort_missing_successor :
  tsort [1] [mkEdge 1 2] = None ∧
  ¬ edges_closed [1] [mkEdge 1 2] ∧
  acyclic [mkEdge 1 2].
Proof.
  split; [reflexivity|]. split.
  - intros H. destruct (H (mkEdge 1 2)) as [_ H2]; [left|].
    simpl in H2. by apply list_elem_of_singleton in H2.
  - apply (acyclic_rank (λ n : nat, n)).
    intros e [->|He%elem_of_nil]%elem_of_cons; [simpl; lia | done].
Qed.

(** * Proofs: signal handling *)

(** C6. [release_vt] makes exactly one call, [ioctl(vfd, VT_RELDISP, a)],
    with [a = 0] (switch refused) when [o_lock_all] is set and [a = 1]
    (switch allowed) when it is clear, and changes nothing else. *)
Theorem release_vt_spec signo w :
  release_vt signo w =
    (Returned tt,
     set_log (log w ++ [EIoctl (vfd w) VT_RELDISP
                          (if decide (o_lock_all w = 0)%Z then 1 else 0)]) w).
Proof.
  unfold release_vt, mbind, M_bind, gets. simpl.
  by destruct (decide (o_lock_all w = 0)%Z).
Qed.

(** C7, as the claim has it: the handler would exit only when the reaped
    pid is that of the supervised child.  With child 5 supervised and
    [waitpid] reporting child 7 the handler restores the terminal and
    exits all the same. *)
Lemma signal_die_any_child :
  ¬ ∀ (child : Z) (w : world),
      (signal_die 17 w).1 = Exited 0 → ret (reply_at 0 w) = child.
Proof.
  intros H. specialize (H 5%Z (world0 [7%Z]) eq_refl). discriminate H.
Qed.

(** C7, amended.  [signal_die] reaps any child without blocking; when
    [waitpid] reports a reaped child (a positive pid) it restores the
    terminal and exits with status 0, and when it reports that no child
    has exited (0) it returns and does nothing else. *)
Theorem signal_die_spec signo w :
  let r := ret (reply_at 0 w) in
  let w1 := set_log (log w ++ [EWaitpid (-1) WNOHANG r])
              (set_script (tail (script w)) w) in
  match (r ?= 0)%Z with
  | Eq => signal_die signo w = (Returned tt, w1)
  | Gt => signal_die signo w =
            (Exited 0, set_log (log w1 ++ [ERestoreTerminal]) w1)
  | Lt => True
  end.
Proof.
  intros r w1. unfold signal_die, waitpid, mbind, M_bind, next_reply. simpl.
  fold r. destruct (r ?= 0)%Z eqn:Hr; [| done |].
  - apply Z.compare_eq in Hr. by rewrite decide_False by lia.
  - apply Z.compare_gt_iff in Hr. by rewrite decide_True by lia.
Qed.

(** On an error of [waitpid] (-1, for instance with no child at all) the
    handler restores the terminal and exits as well. *)
Example signal_die_on_error :
  (signal_die 17 (world0 [])).1 = Exited 0 ∧
  log (signal_die 17 (world0 [])).2 = [EWaitpid (-1) WNOHANG (-1); ERestoreTerminal].
Proof. split; reflexivity. Qed.

(** Running a sequence: when the first part returns, the rest goes on in
    the state it leaves. *)
Lemma bind_run {A B} (m : M A) (k : A → M B) w a w' :
  m w = (Returned a, w') → (m ≫= k) w = k a w'.
Proof. intros H. unfold mbind, M_bind. by rewrite H. Qed.

Lemma sigaction_run sig act w :
  sig ≠ SIGKILL →
  sigaction sig act w =
    (Returned (actions w sig),
     set_actions (λ s, if decide (s = sig) then act else actions w s)
       (set_log (log w ++ [ESigaction sig act]) w)).
Proof.
  intros Hsig. unfold sigaction, mbind, M_bind, gets, emit, modify. simpl.
  by rewrite decide_False by done.
Qed.

Lemma sigprocmask_set_run set w :
  sigprocmask_set set w =
    (Returned (mask w),
     set_mask (set ∖ {[SIGKILL]}) (set_log (log w ++ [ESigprocmask set]) w)).
Proof. reflexivity. Qed.

(** C9, as the claim has it: SIGTSTP would not be blocked after
    [mask_signals].  Starting with nothing blocked, it is. *)
Lemma mask_signals_blocks_tstp :
  ¬ (SIGTSTP ∉ mask (mask_signals (world0 [])).2).
Proof. intros H. apply H. by apply (bool_decide_unpack _). Qed.

(** C9, amended.  After [mask_signals], from any mask: SIGUSR1, SIGUSR2 and
    SIGCHLD are not blocked; SIGTSTP, SIGTTIN, SIGTTOU and SIGHUP are
    blocked in the mask and, in addition, have the handler
    [signal_ignorer] installed, which does nothing. *)
Theorem mask_signals_spec w :
  let w' := (mask_signals w).2 in
  (mask_signals w).1 = Returned tt ∧
  (SIGUSR1 ∉ mask w') ∧ (SIGUSR2 ∉ mask w') ∧ (SIGCHLD ∉ mask w') ∧
  Forall (λ s, s ∈ mask w' ∧
               sa_handler (actions w' s) = Handler fn_signal_ignorer ∧
               handler_code fn_signal_ignorer = Some signal_ignorer)
    [SIGTSTP; SIGTTIN; SIGTTOU; SIGHUP] ∧
  (∀ signo w0, signal_ignorer signo w0 = (Returned tt, w0)) ∧
  osig w' = mask w.
Proof.
  unfold mask_signals.
  erewrite bind_run by reflexivity.
  erewrite bind_run by apply sigprocmask_set_run.
  erewrite bind_run by reflexivity.
  do 6 (erewrite bind_run by (by apply sigaction_run)).
  erewrite bind_run by (by apply sigaction_run).
  simpl. split; [done|].
  split; [solve_mask|]. split; [solve_mask|]. split; [solve_mask|].
  split; [|done].
  repeat (apply Forall_cons; split; [split; [solve_mask | done]|]).
  by apply Forall_nil.
Qed.

(** * Proofs: child processes *)

Lemma waitpid_nohang_run pid w :
  waitpid pid WNOHANG w =
    (Returned (ret (reply_at 0 w)),
     set_log (log w ++ [EWaitpid pid WNOHANG (ret (reply_at 0 w))])
       (set_script (tail (script w)) w)).
Proof. reflexivity. Qed.

Lemma waitpid_block_run pid w :
  waitpid pid 0 w =
    (Returned (ret (reply_at 0 w)),
     set_log (log w ++ [EWaitpid pid 0 (ret (reply_at 0 w))])
       (set_real_timer
          (mkItimerval (it_interval (real_timer w)) (timer_left (reply_at 0 w)))
          (set_script (tail (script w)) w))).
Proof. reflexivity. Qed.

Lemma setitimer_run new w :
  setitimer new w =
    if itimerval_valid new then
      (Returned (Some (real_timer w)),
       set_real_timer new (set_log (log w ++ [ESetitimer new]) w))
    else (Returned None, set_log (log w ++ [ESetitimer new]) w).
Proof.
  unfold setitimer, mbind, M_bind, emit, modify. simpl.
  by destruct (itimerval_valid new).
Qed.


Lemma timer_valid sec usec :
  (0 ≤ sec)%Z → (0 ≤ usec < 1000000)%Z →
  itimerval_valid (mkItimerval (mkTimeval 0 0) (mkTimeval sec usec)) = true.
Proof.
  intros Hs Hu. unfold itimerval_valid, timeval_valid. simpl.
  apply bool_decide_eq_true. lia.
Qed.

(** [wait_for_death] for any duration: the value handed to the second
    [setitimer] is the previous timer when the first call succeeded, and
    what the variable happened to hold when it failed. *)
Lemma wait_for_death_run_any pid sec usec w :
  let timer := mkItimerval (mkTimeval 0 0) (mkTimeval sec usec) in
  let otimer :=
    if itimerval_valid timer then real_timer w else stack_otimer w in
  ∃ w',
    wait_for_death pid sec usec w =
      (Returned (bool_decide (ret (reply_at 0 w) = pid)), w') ∧
    log w' = log w ++ wait_for_death_calls pid sec usec (ret (reply_at 0 w))
                        (actions w SIGALRM) otimer ∧
    script w' = tail (script w) ∧
    (itimerval_valid otimer = true → real_timer w' = otimer) ∧
    (∀ s, actions w' s = actions w s) ∧
    fds w' = fds w ∧ mask w' = mask w.
Proof.
  intros timer otimer. unfold wait_for_death. fold timer.
  erewrite bind_run by (by apply sigaction_run).
  erewrite bind_run by reflexivity.
  unfold otimer. destruct (itimerval_valid timer) eqn:Htimer.
  all: erewrite bind_run by (rewrite setitimer_run, Htimer; reflexivity).
  all: erewrite bind_run by apply waitpid_block_run.
  all: world_simpl; simpl default.
  - destruct (itimerval_valid (real_timer w)) eqn:Hvalid.
    all: erewrite bind_run by (rewrite setitimer_run, Hvalid; reflexivity).
    all: erewrite bind_run by (by apply sigaction_run).
    all: eexists; split; [reflexivity|]; world_simpl.
    all: split; [by rewrite <-!app_assoc|]; split; [done|]; split; [done|].
    all: split; [|done]; intros s; by destruct (decide (s = SIGALRM)) as [->|].
  - destruct (itimerval_valid (stack_otimer w)) eqn:Hvalid.
    all: erewrite bind_run by (rewrite setitimer_run, Hvalid; reflexivity).
    all: erewrite bind_run by (by apply sigaction_run).
    all: eexists; split; [reflexivity|]; world_simpl.
    all: split; [by rewrite <-!app_assoc|]; split; [done|]; split; [done|].
    all: split; [|done]; intros s; by destruct (decide (s = SIGALRM)) as [->|].
Qed.

Lemma wait_for_death_run pid sec usec w :
  (0 ≤ sec)%Z → (0 ≤ usec < 1000000)%Z →
  ∃ w',
    wait_for_death pid sec usec w =
      (Returned (bool_decide (ret (reply_at 0 w) = pid)), w') ∧
    log w' = log w ++ wait_for_death_calls pid sec usec (ret (reply_at 0 w))
                        (actions w SIGALRM) (real_timer w) ∧
    script w' = tail (script w) ∧
    (itimerval_valid (real_timer w) = true → real_timer w' = real_timer w) ∧
    (∀ s, actions w' s = actions w s) ∧
    fds w' = fds w ∧ mask w' = mask w.
Proof.
  intros Hs Hu. pose proof (wait_for_death_run_any pid sec usec w) as H.
  cbv zeta in H. by rewrite timer_valid in H by done.
Qed.

(** C8, as the claim has it, for every pid and duration.  With a duration
    that [setitimer] rejects the previous timer is not saved, and the timer
    that is "put back" is not the previous one; and with pid -1 the call
    returns true when [waitpid] fails, since -1 is what [waitpid] then
    returns. *)
Lemma wait_for_death_not_restored :
  real_timer (wait_for_death 5 0 1000000 (world0 [5%Z])).2
    ≠ real_timer (world0 [5%Z]) ∧
  wait_for_death_calls 5 0 1000000 5 (actions (world0 [5%Z]) SIGALRM)
      (real_timer (world0 [5%Z]))
    ≠ log (wait_for_death 5 0 1000000 (world0 [5%Z])).2 ∧
  (wait_for_death (-1) 0 500000 (world0 [-1]%Z)).1 = Returned true.
Proof. split; [done|]. split; [done | reflexivity]. Qed.

(** C8, amended.  For a pid and a duration that [setitimer] accepts (seconds not
    negative, microseconds in 0..999999), in a process whose real timer
    holds a value of that kind: [wait_for_death] first replaces the
    disposition of SIGALRM and the real timer, taking the previous ones,
    then blocks in [waitpid], then puts the previous timer and the previous
    disposition back, whatever the wait returned and whatever time was left
    on the timer; it returns true exactly when [waitpid] returned [pid]. *)
Theorem wait_for_death_spec pid sec usec w :
  (0 ≤ sec)%Z → (0 ≤ usec < 1000000)%Z →
  itimerval_valid (real_timer w) = true →
  ∃ w',
    wait_for_death pid sec usec w =
      (Returned (bool_decide (ret (reply_at 0 w) = pid)), w') ∧
    log w' = log w ++
      [ESigaction SIGALRM (mkSigaction (Handler fn_ignore_sigalarm) ∅ 0);
       ESetitimer (mkItimerval (mkTimeval 0 0) (mkTimeval sec usec));
       EWaitpid pid 0 (ret (reply_at 0 w));
       ESetitimer (real_timer w);
       ESigaction SIGALRM (actions w SIGALRM)] ∧
    real_timer w' = real_timer w ∧
    (∀ s, actions w' s = actions w s).
Proof.
  intros Hs Hu Hvalid.
  destruct (wait_for_death_run pid sec usec w Hs Hu)
    as (w' & Hrun & Hlog & _ & Htimer & Hact & _).
  exists w'. split; [done|]. split; [done|]. split; [by apply Htimer | done].
Qed.

(** Waiting half a second for child 5, which exits in time. *)
Lemma wait_for_death_spec_witness :
  ∃ w',
    wait_for_death 5 0 500000 (world0 [5%Z]) =
      (Returned (bool_decide (ret (reply_at 0 (world0 [5%Z])) = 5%Z)), w') ∧
    log w' = log (world0 [5%Z]) ++
      [ESigaction SIGALRM (mkSigaction (Handler fn_ignore_sigalarm) ∅ 0);
       ESetitimer (mkItimerval (mkTimeval 0 0) (mkTimeval 0 500000));
       EWaitpid 5 0 (ret (reply_at 0 (world0 [5%Z])));
       ESetitimer (real_timer (world0 [5%Z]));
       ESigaction SIGALRM (actions (world0 [5%Z]) SIGALRM)] ∧
    real_timer w' = real_timer (world0 [5%Z]) ∧
    (∀ s, actions w' s = actions (world0 [5%Z]) s).
Proof.
  apply (wait_for_death_spec 5 0 500000 (world0 [5%Z])).
  - lia.
  - lia.
  - reflexivity.
Defined.

(** A duration of 0 s and 1000000 us is rejected by [setitimer]: the
    previous timer is never stored, the wait goes on all the same, and the
    second [setitimer] is handed what [otimer] happened to hold. *)
Example wait_for_death_rejected_duration :
  (wait_for_death 5 0 1000000 (world0 [5%Z])).1 = Returned true ∧
  log (wait_for_death 5 0 1000000 (world0 [5%Z])).2 =
    [ESigaction SIGALRM (mkSigaction (Handler fn_ignore_sigalarm) ∅ 0);
     ESetitimer (mkItimerval (mkTimeval 0 0) (mkTimeval 0 1000000));
     EWaitpid 5 0 5;
     ESetitimer (stack_otimer (world0 [5%Z]));
     ESigaction SIGALRM (actions (world0 [5%Z]) SIGALRM)].
Proof. split; reflexivity. Qed.


(** ** Failure of [create_child] *)

Lemma quiet_ret {A} (a : A) : quiet (mret a).
Proof. intros w. exists []. by rewrite app_nil_r. Qed.

Lemma quiet_bind {A B} (m : M A) (k : A → M B) :
  quiet m → (∀ a, quiet (k a)) → quiet (m ≫= k).
Proof.
  intros Hm Hk w. destruct (Hm w) as (evs & Hlog & Hevs).
  unfold mbind, M_bind. destruct (m w) as [[a|s|p args|f arg|] w1];
    simpl in *; try by exists evs.
  destruct (Hk a w1) as (evs' & Hlog' & Hevs').
  exists (evs ++ evs'). split; [|by apply Forall_app].
  by rewrite Hlog', Hlog, app_assoc.
Qed.

Lemma quiet_silent {A} (m : M A) : (∀ w, log (m w).2 = log w) → quiet m.
Proof. intros H w. exists []. by rewrite H, app_nil_r. Qed.

Lemma quiet_emit e : ¬ launch_failure e → quiet (emit e).
Proof. intros He w. exists [e]. split; [done|]. by apply Forall_singleton. Qed.

Lemma quiet_mfor {A} (l : list A) (body : A → M unit) :
  (∀ x, quiet (body x)) → quiet (mfor l body).
Proof.
  intros Hbody. induction l as [|x l IH]; simpl.
  - apply quiet_ret.
  - apply quiet_bind; [done | by intros _].
Qed.

Lemma quiet_load {A} (x : option A) : quiet (load x).
Proof. destruct x; by apply quiet_silent. Qed.

Lemma quiet_close fd : quiet (close fd).
Proof.
  unfold close. apply quiet_bind; [apply quiet_emit; simpl; tauto|]. intros _.
  apply quiet_bind; [by apply quiet_silent|]. intros m.
  destruct (m !! fd); [|apply quiet_ret].
  apply quiet_bind; [by apply quiet_silent | intros _; apply quiet_ret].
Qed.

Lemma quiet_dup2 oldfd newfd : quiet (dup2 oldfd newfd).
Proof.
  unfold dup2. apply quiet_bind; [apply quiet_emit; simpl; tauto|]. intros _.
  apply quiet_bind; [by apply quiet_silent|]. intros m.
  destruct (m !! oldfd); [|apply quiet_ret].
  destruct (decide (newfd < 0)%Z); [apply quiet_ret|].
  apply quiet_bind; [by apply quiet_silent | intros _; apply quiet_ret].
Qed.

Lemma quiet_open_devnull : quiet open_devnull.
Proof.
  unfold open_devnull. apply quiet_bind; [by apply quiet_silent|]. intros d.
  apply quiet_bind; [|intros _; by apply quiet_silent].
  destruct (decide (d < 0)%Z); [|apply quiet_ret].
  apply quiet_bind; [|intros d'; by apply quiet_silent].
  unfold open_dev_null. apply quiet_bind; [by apply quiet_silent|]. intros r.
  destruct (decide (ret r < 0)%Z).
  - apply quiet_bind; [apply quiet_emit; simpl; tauto | intros _; apply quiet_ret].
  - apply quiet_bind; [by apply quiet_silent|]. intros m.
    apply quiet_bind; [by apply quiet_silent|]. intros _.
    apply quiet_bind; [apply quiet_emit; simpl; tauto | intros _; apply quiet_ret].
Qed.

Lemma quiet_child_redirect mode pipe_fds end_of :
  quiet (child_redirect mode pipe_fds end_of).
Proof.
  destruct mode; simpl.
  - apply quiet_ret.
  - apply quiet_bind; [apply quiet_open_devnull|]. intros d.
    apply quiet_bind; [apply quiet_dup2 | intros _; apply quiet_ret].
  - apply quiet_bind; [apply quiet_load|]. intros p.
    apply quiet_bind; [apply quiet_dup2 | intros _; apply quiet_ret].
  - apply quiet_bind; [apply quiet_dup2 | intros _; apply quiet_ret].
Qed.

Lemma quiet_close_all_fds : quiet close_all_fds.
Proof.
  unfold close_all_fds. apply quiet_bind; [by apply quiet_silent|]. intros r.
  apply quiet_mfor. intros i.
  destruct (decide _); [apply quiet_ret|].
  apply quiet_bind; [apply quiet_close | intros _; apply quiet_ret].
Qed.

Lemma quiet_create_child_child child p1 p2 p3 :
  quiet (create_child_child child p1 p2 p3).
Proof.
  unfold create_child_child.
  do 3 (apply quiet_bind; [apply quiet_child_redirect | intros _]).
  apply quiet_bind; [apply quiet_close_all_fds | intros _].
  apply quiet_bind; [by apply quiet_silent | intros g].
  apply quiet_bind; [|intros _].
  { unfold setgid. apply quiet_bind; [apply quiet_emit; simpl; tauto | intros _].
    apply quiet_bind; [by apply quiet_silent | intros _; apply quiet_ret]. }
  apply quiet_bind; [by apply quiet_silent | intros u].
  apply quiet_bind; [|intros _].
  { unfold setuid. apply quiet_bind; [apply quiet_emit; simpl; tauto | intros _].
    apply quiet_bind; [by apply quiet_silent | intros _; apply quiet_ret]. }
  destruct (function child); [by apply quiet_silent|].
  apply quiet_bind; [|intros _; by apply quiet_silent].
  unfold execv. apply quiet_bind; [by apply quiet_silent | intros r].
  apply quiet_bind; [apply quiet_emit; simpl; tauto | intros _].
  destruct (decide _); [apply quiet_ret | by apply quiet_silent].
Qed.

Lemma quiet_create_child_parent child p1 p2 p3 :
  quiet (create_child_parent child p1 p2 p3).
Proof.
  unfold create_child_parent.
  do 3 (apply quiet_bind;
        [destruct (decide _); [|apply quiet_ret];
         apply quiet_bind; [apply quiet_load | intros p];
         apply quiet_bind; [apply quiet_close | intros _; apply quiet_ret]
        |intros ?]).
  apply quiet_ret.
Qed.

Lemma quiet_close_pipe mode pipe_fds : quiet (close_pipe mode pipe_fds).
Proof.
  unfold close_pipe. destruct (decide _); [|apply quiet_ret].
  apply quiet_bind; [apply quiet_load | intros p].
  do 2 (apply quiet_bind; [apply quiet_close | intros _]). apply quiet_ret.
Qed.

Lemma quiet_stdout_pipe_failed child p1 : quiet (stdout_pipe_failed child p1).
Proof.
  unfold stdout_pipe_failed.
  apply quiet_bind; [apply quiet_close_pipe | intros _; apply quiet_ret].
Qed.

Lemma quiet_stderr_pipe_failed child p1 p2 :
  quiet (stderr_pipe_failed child p1 p2).
Proof.
  unfold stderr_pipe_failed.
  apply quiet_bind; [apply quiet_close_pipe | intros _].
  apply quiet_stdout_pipe_failed.
Qed.

Lemma quiet_fork_failed child p1 p2 p3 : quiet (fork_failed child p1 p2 p3).
Proof.
  unfold fork_failed.
  apply quiet_bind; [apply quiet_close_pipe | intros _].
  apply quiet_stderr_pipe_failed.
Qed.

Lemma close_open fd f w :
  fds w !! fd = Some f →
  close fd w =
    (Returned 0%Z,
     set_fds (delete fd (fds w)) (set_log (log w ++ [EClose fd]) w)).
Proof.
  intros Hfd. unfold close.
  erewrite bind_run by reflexivity. erewrite bind_run by reflexivity.
  world_simpl. rewrite Hfd. by erewrite bind_run by reflexivity.
Qed.

(** [pipe] either fails and leaves the descriptors alone, or adds the two
    ends of a pipe on descriptors that were free. *)
Lemma pipe_run w :
  ∃ p w',
    pipe w = (Returned p, w') ∧ log w' = log w ++ [EPipe p] ∧
    match p with
    | None => fds w' = fds w
    | Some _ => pipe_open REDIRECT_PIPE p (fds w) (fds w')
    end.
Proof.
  unfold pipe. erewrite bind_run by reflexivity.
  destruct (decide _) as [Hneg|Hpos].
  - exists None. eexists. split; [reflexivity|]. by world_simpl.
  - do 2 (erewrite bind_run by reflexivity). world_simpl.
    set (rd := fresh (dom (fds w))).
    set (wr := fresh ({[rd]} ∪ dom (fds w))).
    exists (Some (rd, wr)). eexists. split; [reflexivity|]. world_simpl.
    split; [done|]. unfold pipe_open. rewrite decide_True by done.
    exists rd, wr, (pipes w). split; [done|].
    pose proof (is_fresh (dom (fds w))) as Hrd. fold rd in Hrd.
    pose proof (is_fresh ({[rd]} ∪ dom (fds w))) as Hwr. fold wr in Hwr.
    rewrite not_elem_of_union, not_elem_of_singleton in Hwr.
    destruct Hwr as [Hne Hwr].
    split; [by apply not_elem_of_dom|]. split; [by apply not_elem_of_dom|].
    split; [done | done].
Qed.

(** Closing a pipe that was opened gives the descriptor table back. *)
Lemma close_pipe_run mode pipe_fds m w :
  pipe_open mode pipe_fds m (fds w) →
  ∃ w', close_pipe mode pipe_fds w = (Returned tt, w') ∧ fds w' = m.
Proof.
  unfold pipe_open, close_pipe. destruct (decide (mode = REDIRECT_PIPE)).
  - intros (rd & wr & k & -> & Hrd & Hwr & Hne & Hfds).
    erewrite bind_run by reflexivity. simpl.
    erewrite bind_run; last first.
    { apply close_open with (f := PipeRead k).
      by rewrite Hfds, lookup_insert_ne, lookup_insert_eq. }
    erewrite bind_run; last first.
    { apply close_open with (f := PipeWrite k). world_simpl.
      by rewrite Hfds, lookup_delete_ne, lookup_insert_eq. }
    eexists. split; [reflexivity|]. world_simpl.
    rewrite Hfds, delete_insert_ne by done.
    rewrite (delete_insert_id m rd) by done.
    by rewrite delete_insert_id.
  - intros Hfds. by exists w.
Qed.

Lemma stdout_pipe_failed_run child p1 m0 w :
  pipe_open (stdin_fd child) p1 m0 (fds w) →
  ∃ w', stdout_pipe_failed child p1 w = (Returned (false, child), w') ∧
        fds w' = m0.
Proof.
  intros H1. unfold stdout_pipe_failed.
  destruct (close_pipe_run _ _ _ _ H1) as (w' & Hrun & Hfds).
  erewrite bind_run by exact Hrun. by exists w'.
Qed.

Lemma stderr_pipe_failed_run child p1 p2 m0 m1 w :
  pipe_open (stdin_fd child) p1 m0 m1 →
  pipe_open (stdout_fd child) p2 m1 (fds w) →
  ∃ w', stderr_pipe_failed child p1 p2 w = (Returned (false, child), w') ∧
        fds w' = m0.
Proof.
  intros H1 H2. unfold stderr_pipe_failed.
  destruct (close_pipe_run _ _ _ _ H2) as (w' & Hrun & Hfds).
  erewrite bind_run by exact Hrun. apply stdout_pipe_failed_run.
  by rewrite Hfds.
Qed.

Lemma fork_failed_run child p1 p2 p3 m0 m1 m2 w :
  pipe_open (stdin_fd child) p1 m0 m1 →
  pipe_open (stdout_fd child) p2 m1 m2 →
  pipe_open (stderr_fd child) p3 m2 (fds w) →
  ∃ w', fork_failed child p1 p2 p3 w = (Returned (false, child), w') ∧
        fds w' = m0.
Proof.
  intros H1 H2 H3. unfold fork_failed.
  destruct (close_pipe_run _ _ _ _ H3) as (w' & Hrun & Hfds).
  erewrite bind_run by exact Hrun. eapply stderr_pipe_failed_run; [done|].
  by rewrite Hfds.
Qed.

Lemma clean_or_quiet_after child m0 w w1 evs1 r :
  log w1 = log w ++ evs1 → Forall (λ e, ¬ launch_failure e) evs1 →
  clean_or_quiet child m0 w1 r → clean_or_quiet child m0 w r.
Proof.
  intros Hlog Hevs1 (evs & Hlog' & Hcases). exists (evs1 ++ evs).
  split; [by rewrite Hlog', Hlog, app_assoc|].
  destruct Hcases as [Hevs|Hclean]; [left; by apply Forall_app | by right].
Qed.

Lemma clean_or_quiet_quiet child m0 w (m : M (bool * child_process)) :
  quiet m → clean_or_quiet child m0 w (m w).
Proof. intros Hm. destruct (Hm w) as (evs & Hlog & Hevs). exists evs. auto. Qed.

Lemma create_child_fork_cases child p1 p2 p3 m0 m1 m2 w :
  pipe_open (stdin_fd child) p1 m0 m1 →
  pipe_open (stdout_fd child) p2 m1 m2 →
  pipe_open (stderr_fd child) p3 m2 (fds w) →
  clean_or_quiet child m0 w (create_child_fork child p1 p2 p3 w).
Proof.
  intros H1 H2 H3. unfold create_child_fork.
  erewrite bind_run by reflexivity.
  set (r := ret (reply_at 0 w)). set (w1 := set_log _ _).
  assert (log w1 = log w ++ [EFork r]) as Hlog by done.
  destruct (decide (r = 0)%Z) as [Hr|Hr].
  { eapply clean_or_quiet_after; [done | |].
    - apply Forall_singleton. simpl. lia.
    - apply clean_or_quiet_quiet, quiet_create_child_child. }
  destruct (decide (r < 0)%Z) as [Hneg|Hpos].
  - destruct (fork_failed_run (set_pid r child) p1 p2 p3 m0 m1 m2 w1)
      as (w' & Hrun & Hfds); [done..|].
    destruct (quiet_fork_failed (set_pid r child) p1 p2 p3 w1)
      as (evs & Hlog' & _).
    rewrite Hrun in Hlog' |- *. simpl in Hlog' |- *.
    exists (EFork r :: evs). split.
    + simpl. by rewrite Hlog', <-app_assoc.
    + right. by exists (set_pid r child).
  - eapply clean_or_quiet_after; [done | |].
    + apply Forall_singleton. simpl. lia.
    + apply clean_or_quiet_quiet, quiet_create_child_parent.
Qed.

Lemma create_child_stderr_cases child p1 p2 m0 m1 w :
  pipe_open (stdin_fd child) p1 m0 m1 →
  pipe_open (stdout_fd child) p2 m1 (fds w) →
  clean_or_quiet child m0 w (create_child_stderr child p1 p2 w).
Proof.
  intros H1 H2. unfold create_child_stderr.
  destruct (decide (stderr_fd child = REDIRECT_PIPE)) as [Hmode|Hmode].
  - destruct (pipe_run w) as (p & w1 & Hrun & Hlog & Hp).
    erewrite bind_run by exact Hrun. destruct p as [p|].
    + eapply clean_or_quiet_after;
        [done | apply Forall_singleton; simpl; tauto |].
      eapply create_child_fork_cases; [done | done |]. by rewrite Hmode.
    + destruct (stderr_pipe_failed_run child p1 p2 m0 m1 w1)
        as (w' & Hrun' & Hfds); [done | by rewrite Hp |].
      destruct (quiet_stderr_pipe_failed child p1 p2 w1) as (evs & Hlog' & _).
      rewrite Hrun' in Hlog' |- *. simpl in Hlog' |- *.
      exists (EPipe None :: evs). split.
      * simpl. by rewrite Hlog', Hlog, <-app_assoc.
      * right. by exists child.
  - eapply create_child_fork_cases; [done | done |].
    unfold pipe_open. by rewrite decide_False.
Qed.

Lemma create_child_stdout_cases child p1 m0 w :
  pipe_open (stdin_fd child) p1 m0 (fds w) →
  clean_or_quiet child m0 w (create_child_stdout child p1 w).
Proof.
  intros H1. unfold create_child_stdout.
  destruct (decide (stdout_fd child = REDIRECT_PIPE)) as [Hmode|Hmode].
  - destruct (pipe_run w) as (p & w1 & Hrun & Hlog & Hp).
    erewrite bind_run by exact Hrun. destruct p as [p|].
    + eapply clean_or_quiet_after;
        [done | apply Forall_singleton; simpl; tauto |].
      eapply create_child_stderr_cases; [done|]. by rewrite Hmode.
    + destruct (stdout_pipe_failed_run child p1 m0 w1)
        as (w' & Hrun' & Hfds); [by rewrite Hp|].
      destruct (quiet_stdout_pipe_failed child p1 w1) as (evs & Hlog' & _).
      rewrite Hrun' in Hlog' |- *. simpl in Hlog' |- *.
      exists (EPipe None :: evs). split.
      * simpl. by rewrite Hlog', Hlog, <-app_assoc.
      * right. by exists child.
  - eapply create_child_stderr_cases; [done|].
    unfold pipe_open. by rewrite decide_False.
Qed.

Lemma create_child_cases child w :
  clean_or_quiet child (fds w) w (create_child child w).
Proof.
  unfold create_child.
  destruct (decide (stdin_fd child = REDIRECT_PIPE)) as [Hmode|Hmode].
  - destruct (pipe_run w) as (p & w1 & Hrun & Hlog & Hp).
    erewrite bind_run by exact Hrun. destruct p as [p|].
    + eapply clean_or_quiet_after;
        [done | apply Forall_singleton; simpl; tauto |].
      eapply create_child_stdout_cases. by rewrite Hmode.
    + exists [EPipe None]. split; [done|]. right. by exists child.
  - apply create_child_stdout_cases. unfold pipe_open. by rewrite decide_False.
Qed.

(** C3. When, during a call of [create_child], [pipe] fails or [fork]
    returns a negative pid, [create_child] returns false, the descriptor
    table is the one of before the call (every pipe descriptor that the
    call opened is closed again), and the fields [stdin_fd], [stdout_fd]
    and [stderr_fd] hold the modes they held before. *)
Theorem create_child_failure child w res w' calls :
  create_child child w = (res, w') →
  log w' = log w ++ calls →
  Exists launch_failure calls →
  ∃ child',
    res = Returned (false, child') ∧
    fds w' = fds w ∧
    stdin_fd child' = stdin_fd child ∧
    stdout_fd child' = stdout_fd child ∧
    stderr_fd child' = stderr_fd child.
Proof.
  intros Hrun Hlog Hfail.
  destruct (create_child_cases child w) as (evs & Hlog' & Hcases).
  rewrite Hrun in Hlog', Hcases. simpl in Hlog', Hcases.
  rewrite Hlog in Hlog'. apply app_inv_head in Hlog' as ->.
  destruct Hcases as [Hquiet|Hclean]; [|done].
  exfalso. apply Exists_exists in Hfail as (e & He & Hfail).
  rewrite Forall_forall in Hquiet. by apply (Hquiet e).
Qed.

Lemma create_child_failure_witness :
  ∃ child',
    (create_child child_pipes (world0 [0; 0; -1]%Z)).1
      = Returned (false, child') ∧
    fds (create_child child_pipes (world0 [0; 0; -1]%Z)).2
      = fds (world0 [0; 0; -1]%Z) ∧
    stdin_fd child' = stdin_fd child_pipes ∧
    stdout_fd child' = stdout_fd child_pipes ∧
    stderr_fd child' = stderr_fd child_pipes.
Proof.
  apply (create_child_failure child_pipes (world0 [0; 0; -1]%Z) _ _
           [EPipe (Some (3, 4)%Z); EPipe (Some (5, 6)%Z); EPipe None;
            EClose 5; EClose 6; EClose 3; EClose 4]).
  - apply surjective_pairing.
  - vm_compute. reflexivity.
  - apply Exists_cons_tl, Exists_cons_tl, Exists_cons_hd. exact I.
Defined.

(** C4. The child branch for a child with three pipes, (3, 4) for stdin,
    (5, 6) for stdout and (7, 8) for stderr: the three calls of [dup2] all
    name descriptor 0 as the descriptor to copy and a pipe end as the one to
    overwrite, so that at [execv] descriptors 0, 1 and 2 still are the
    console, where the claim has 0 be the read end of the first pipe, 1 the
    write end of the second and 2 the write end of the third. *)
Theorem create_child_redirects_stdin_only :
  let r := create_child child_pipes (world0 [0; 0; 0; 0; 0]%Z) in
  r.1 = Execed "/sbin/vlock-auth" ["vlock-auth"] ∧
  dup2_calls (log r.2) = [(0, 3); (0, 6); (0, 8)]%Z ∧
  fds r.2 !! 0%Z = Some (OtherFile "/dev/tty1") ∧
  fds r.2 !! 1%Z = Some (OtherFile "/dev/tty1") ∧
  fds r.2 !! 2%Z = Some (OtherFile "/dev/tty1").
Proof. vm_compute. repeat split; reflexivity. Qed.

(** * Further properties: topological sorter *)

Section tsort_more.
Context {T : Type} `{EqDecision T}.
Implicit Types (n s zero : T) (e : Edge T) (E edges : list (Edge T)).
Implicit Types (Z S nodes : list T).

(** X1. [tsort] comes back from a call exactly when no edge leaves a
    listed node that no edge enters; on every other input the inner loop
    reaches the use of the invalidated iterator and the run is
    undefined. *)
Theorem tsort_defined_iff nodes edges :
  is_Some (tsort nodes edges) ↔
  ∀ e, e ∈ edges → predecessor e ∈ nodes →
       is_zero (predecessor e) edges = false.
Proof.
  split.
  - intros [r Hr] e He Hn.
    destruct (is_zero (predecessor e) edges) eqn:Hz; [|done].
    rewrite (tsort_undefined nodes edges e) in Hr; [done | done |].
    rewrite get_zeros_filter. by apply list_elem_of_filter.
  - intros H. rewrite tsort_defined; [by eexists|].
    intros e He. rewrite get_zeros_filter, list_elem_of_filter.
    intros [Hz Hn]. rewrite (H e He Hn) in Hz. done.
Qed.

(** X2. Whenever [tsort] comes back it has changed nothing: the node list
    and the edge list are as they were passed, and the flag only tells
    whether the edge list is empty. *)
Theorem tsort_returns_unchanged nodes edges ok nodes' left :
  tsort nodes edges = Some (ok, nodes', left) →
  ok = list_empty edges ∧ nodes' = nodes ∧ left = edges.
Proof.
  unfold tsort. intros Hrun.
  destruct (tsort_loop _ _ _) as [[S' E']|] eqn:Hloop; [|done].
  apply tsort_loop_result in Hloop as [-> ->].
  destruct edges; by simplify_eq/=.
Qed.

(** X5. [get_zeros] is the node list with exactly the nodes dropped that
    some edge enters: what is kept stands in the order and with the
    repetitions of the node list. *)
Theorem get_zeros_spec nodes edges :
  get_zeros nodes edges = filter (λ n, is_zero n edges = true) nodes ∧
  ∀ n, is_zero n edges = true ↔ ∀ e, e ∈ edges → successor e ≠ n.
Proof. split; [apply get_zeros_filter | intros n; apply is_zero_true]. Qed.

End tsort_more.

(** A cycle on its own. *)
Lemma tsort_returns_unchanged_witness :
  false = list_empty [mkEdge 1 2; mkEdge 2 1] ∧
  [1; 2] = [1; 2] ∧
  [mkEdge 1 2; mkEdge 2 1] = [mkEdge 1 2; mkEdge 2 1].
Proof.
  apply (tsort_returns_unchanged [1; 2] [mkEdge 1 2; mkEdge 2 1]).
  reflexivity.
Defined.

(** * Further properties: child processes *)

(** [close] removes the descriptor from the table, open or not, and
    touches nothing but the table and the log. *)
Lemma close_run fd w :
  ∃ r w',
    close fd w = (Returned r, w') ∧
    fds w' = delete fd (fds w) ∧
    log w' = log w ++ [EClose fd] ∧
    rest_of w' = rest_of w ∧ actions w' = actions w.
Proof.
  unfold close. erewrite bind_run by reflexivity.
  erewrite bind_run by reflexivity. world_simpl.
  destruct (fds w !! fd) eqn:Hfd.
  - erewrite bind_run by reflexivity. by eexists _, _.
  - eexists _, _. split; [reflexivity|]. world_simpl.
    by rewrite delete_id.
Qed.

Lemma mfor_close_run (l : list Z) w :
  ∃ w',
    mfor l (λ i, if decide (is_std i) then mret tt else close i;; mret tt) w
      = (Returned tt, w') ∧
    (∀ k, fds w' !! k =
            if decide (k ∈ l ∧ ¬ is_std k) then None else fds w !! k) ∧
    log w' = log w ++ (EClose <$> filter (λ i, ¬ is_std i) l) ∧
    rest_of w' = rest_of w ∧ actions w' = actions w.
Proof.
  revert w. induction l as [|i l IH]; intros w; cbn [mfor].
  - exists w. split; [done|]. split; [|by rewrite app_nil_r].
    intros k. rewrite decide_False; [done|].
    intros [Hk _]. by apply elem_of_nil in Hk.
  - destruct (decide (is_std i)) as [Hstd|Hstd].
    + erewrite bind_run by reflexivity.
      destruct (IH w) as (w' & Hrun & Hfds & Hlog & Hrest & Hact).
      exists w'. split; [done|]. split; [|split; [|done]].
      * intros k. rewrite Hfds. apply decide_ext.
        rewrite elem_of_cons. split; [tauto|].
        intros [[->|Hk] Hn]; [done | tauto].
      * by rewrite Hlog, filter_cons_False by tauto.
    + destruct (close_run i w) as (r & w1 & Hrun1 & Hfds1 & Hlog1 & Hrest1 & Hact1).
      erewrite bind_run; last first.
      { erewrite bind_run by exact Hrun1. reflexivity. }
      destruct (IH w1) as (w' & Hrun & Hfds & Hlog & Hrest & Hact).
      exists w'. split; [done|]. split; [|split; [|split; congruence]].
      * intros k. rewrite Hfds, Hfds1.
        destruct (decide (k = i)) as [->|Hki].
        -- rewrite lookup_delete_eq.
           rewrite (decide_True (P := i ∈ i :: l ∧ ¬ is_std i))
             by (split; [left | done]).
           by destruct (decide _).
        -- rewrite lookup_delete_ne by done. apply decide_ext.
           rewrite elem_of_cons. split; [tauto|]. intros [[?|?] ?]; [done | tauto].
      * rewrite Hlog, Hlog1, filter_cons_True by done.
        by rewrite fmap_cons, <-app_assoc.
Qed.

Lemma close_all_fds_run w :
  ∃ w',
    close_all_fds w = (Returned tt, w') ∧
    (∀ k, fds w' !! k =
            if decide ((0 ≤ k < nofile_limit w)%Z ∧ ¬ is_std k)
            then None else fds w !! k) ∧
    log w' = log w ++
      (EClose <$> filter (λ i, ¬ is_std i) (seqZ 0 (nofile_limit w))) ∧
    rest_of w' = rest_of w ∧ actions w' = actions w.
Proof.
  unfold close_all_fds. erewrite bind_run by reflexivity.
  fold (nofile_limit w).
  destruct (mfor_close_run (seqZ 0 (nofile_limit w)) w)
    as (w' & Hrun & Hfds & Hlog & Hrest & Hact).
  exists w'. split; [exact Hrun|]. split; [|done].
  intros k. rewrite Hfds. apply decide_ext. rewrite elem_of_seqZ.
  split; intros [? ?]; (split; [lia | done]).
Qed.

(** X7. [close_all_fds] always returns; afterwards no descriptor from 0 up
    to the limit (the soft RLIMIT_NOFILE, or 1024 when [getrlimit] fails)
    is open other than 0, 1 and 2, every other descriptor is as before,
    and nothing but the descriptor table and the log has changed. *)
Theorem close_all_fds_spec w :
  ∃ w',
    close_all_fds w = (Returned tt, w') ∧
    (∀ k, fds w' !! k =
            if decide ((0 ≤ k < nofile_limit w)%Z ∧ ¬ is_std k)
            then None else fds w !! k) ∧
    log w' = log w ++
      (EClose <$> filter (λ i, ¬ is_std i) (seqZ 0 (nofile_limit w))) ∧
    rest_of w' = rest_of w ∧ actions w' = actions w.
Proof. apply close_all_fds_run. Qed.

Lemma open_dev_null_run w :
  ∃ fd w1,
    open_dev_null w = (Returned fd, w1) ∧
    log w1 = log w ++ [EOpen "/dev/null" fd] ∧
    devnull_fd w1 = devnull_fd w ∧
    ((fd = (-1)%Z ∧ fds w1 = fds w) ∨
     (fds w !! fd = None ∧ fds w1 = <[fd := DevNull]> (fds w))).
Proof.
  unfold open_dev_null. erewrite bind_run by reflexivity.
  destruct (decide (ret (reply_at 0 w) < 0)%Z).
  - erewrite bind_run by reflexivity.
    eexists _, _. split; [reflexivity|]. world_simpl.
    split; [done|]. split; [done|]. by left.
  - do 3 (erewrite bind_run by reflexivity).
    eexists _, _. split; [reflexivity|]. world_simpl.
    split; [done|]. split; [done|]. right.
    split; [|done]. apply not_elem_of_dom, is_fresh.
Qed.

Lemma open_devnull_run w :
  ∃ w1,
    open_devnull w = (Returned (devnull_fd w1), w1) ∧
    if decide (devnull_fd w < 0)%Z then
      log w1 = log w ++ [EOpen "/dev/null" (devnull_fd w1)] ∧
      ((devnull_fd w1 = (-1)%Z ∧ fds w1 = fds w) ∨
       (fds w !! devnull_fd w1 = None ∧
        fds w1 = <[devnull_fd w1 := DevNull]> (fds w)))
    else w1 = w.
Proof.
  unfold open_devnull. erewrite bind_run by reflexivity.
  destruct (decide (devnull_fd w < 0)%Z) as [Hneg|Hpos].
  - destruct (open_dev_null_run w) as (fd & w1 & Hrun & Hlog & _ & Hcase).
    erewrite bind_run; last first.
    { erewrite bind_run by exact Hrun. reflexivity. }
    eexists. split; [reflexivity|]. by world_simpl.
  - erewrite bind_run by reflexivity. by exists w.
Qed.

(** X8. [open_devnull] opens /dev/null at most once: once it has returned
    a descriptor, a further call returns the same descriptor and makes no
    call; the descriptor it opened was free before and refers to
    /dev/null. *)
Theorem open_devnull_cached w fd w1 :
  open_devnull w = (Returned fd, w1) → (0 ≤ fd)%Z →
  open_devnull w1 = (Returned fd, w1) ∧
  ((devnull_fd w < 0)%Z →
   fds w !! fd = None ∧ fds w1 !! fd = Some DevNull ∧
   log w1 = log w ++ [EOpen "/dev/null" fd]).
Proof.
  intros Hrun Hfd.
  destruct (open_devnull_run w) as (w1' & Hrun' & Hcase).
  rewrite Hrun in Hrun'. injection Hrun' as -> <-.
  split.
  - destruct (open_devnull_run w1) as (w2 & Hrun2 & Hcase2).
    rewrite decide_False in Hcase2 by lia. by subst w2.
  - intros Hneg. rewrite decide_True in Hcase by done.
    destruct Hcase as [Hlog [[Hminus _]|[Hfree Hfds]]]; [lia|].
    split; [done|]. split; [|done]. by rewrite Hfds, lookup_insert_eq.
Qed.

(** The first call opens /dev/null on descriptor 3. *)
Lemma open_devnull_cached_witness :
  open_devnull (open_devnull (world0 [0%Z])).2
    = (Returned 3%Z, (open_devnull (world0 [0%Z])).2) ∧
  ((devnull_fd (world0 [0%Z]) < 0)%Z →
   fds (world0 [0%Z]) !! 3%Z = None ∧
   fds (open_devnull (world0 [0%Z])).2 !! 3%Z = Some DevNull ∧
   log (open_devnull (world0 [0%Z])).2
     = log (world0 [0%Z]) ++ [EOpen "/dev/null" 3]).
Proof.
  apply (open_devnull_cached (world0 [0%Z]) 3).
  - vm_compute. reflexivity.
  - lia.
Defined.

(** ** A successful launch *)

(** One of the three steps of the parent after [fork]: for a stream that
    asked for a pipe the end of the child is closed and the end of the
    parent is stored in the descriptor. *)
Lemma parent_step_run (mode : redirect) (pipe_fds : option (Z * Z))
    (close_end keep_end : Z * Z → Z)
    (set : redirect → child_process → child_process) child w :
  (mode = REDIRECT_PIPE → is_Some pipe_fds) →
  ∃ child1 w1,
    (if decide (mode = REDIRECT_PIPE) then
       p ← load pipe_fds;
       close (close_end p);;
       mret (set (Fd (keep_end p)) child)
     else mret child) w = (Returned child1, w1) ∧
    if decide (mode = REDIRECT_PIPE) then
      ∃ p, pipe_fds = Some p ∧ child1 = set (Fd (keep_end p)) child ∧
           fds w1 = delete (close_end p) (fds w)
    else child1 = child ∧ w1 = w.
Proof.
  intros Hsome. destruct (decide (mode = REDIRECT_PIPE)) as [Hmode|Hmode].
  - destruct (Hsome Hmode) as [p ->]. erewrite bind_run by reflexivity.
    destruct (close_run (close_end p) w) as (r & w1 & Hrun & Hfds & _).
    erewrite bind_run by exact Hrun. eexists _, w1. split; [reflexivity|].
    by exists p.
  - by exists child, w.
Qed.

Lemma pipe_fd_other mode field :
  mode ≠ REDIRECT_PIPE → pipe_fd mode field = [].
Proof. by destruct mode. Qed.

Lemma pipe_open_is_Some mode pipe_fds m m' :
  pipe_open mode pipe_fds m m' → mode = REDIRECT_PIPE → is_Some pipe_fds.
Proof.
  unfold pipe_open. intros H Hmode. rewrite decide_True in H by done.
  destruct H as (rd & wr & k & -> & _). by eexists.
Qed.

Lemma pipe_open_at_open n mode pipe_fds m m' :
  pipe_open_at n mode pipe_fds m m' → pipe_open mode pipe_fds m m'.
Proof.
  unfold pipe_open_at, pipe_open. destruct (decide _); [|done].
  intros (rd & wr & H). by exists rd, wr, n.
Qed.

Lemma pipe_open_at_exists mode pipe_fds m m' :
  pipe_open mode pipe_fds m m' → ∃ n, pipe_open_at n mode pipe_fds m m'.
Proof.
  unfold pipe_open_at, pipe_open. destruct (decide _); [|by exists 0].
  intros (rd & wr & n & H). exists n. by exists rd, wr.
Qed.

Lemma pipe_open_at_other n mode m :
  mode ≠ REDIRECT_PIPE → pipe_open_at n mode None m m.
Proof. intros Hmode. unfold pipe_open_at. by rewrite decide_False. Qed.

(** [pipe] numbers the pipe it creates with the count so far. *)
Lemma pipe_run_at w :
  ∃ p w',
    pipe w = (Returned p, w') ∧
    match p with
    | None => fds w' = fds w ∧ pipes w' = pipes w
    | Some _ => pipe_open_at (pipes w) REDIRECT_PIPE p (fds w) (fds w') ∧
                pipes w' = Datatypes.S (pipes w)
    end.
Proof.
  unfold pipe. erewrite bind_run by reflexivity.
  destruct (decide _) as [Hneg|Hpos].
  - exists None. eexists. split; [reflexivity|]. by world_simpl.
  - do 2 (erewrite bind_run by reflexivity). world_simpl.
    set (rd := fresh (dom (fds w))).
    set (wr := fresh ({[rd]} ∪ dom (fds w))).
    exists (Some (rd, wr)). eexists. split; [reflexivity|]. world_simpl.
    split; [|done]. unfold pipe_open_at. rewrite decide_True by done.
    exists rd, wr. split; [done|].
    pose proof (is_fresh (dom (fds w))) as Hrd. fold rd in Hrd.
    pose proof (is_fresh ({[rd]} ∪ dom (fds w))) as Hwr. fold wr in Hwr.
    rewrite not_elem_of_union, not_elem_of_singleton in Hwr.
    destruct Hwr as [Hne Hwr].
    split; [by apply not_elem_of_dom|]. split; [by apply not_elem_of_dom|].
    split; [done | done].
Qed.

Lemma create_child_parent_run child p1 p2 p3 n1 n2 n3 m0 m1 m2 w :
  pipe_open_at n1 (stdin_fd child) p1 m0 m1 →
  pipe_open_at n2 (stdout_fd child) p2 m1 m2 →
  pipe_open_at n3 (stderr_fd child) p3 m2 (fds w) →
  ∃ child' w',
    create_child_parent child p1 p2 p3 w = (Returned (true, child'), w') ∧
    pid child' = pid child ∧
    parent_end true (stdin_fd child) (stdin_fd child') (fds w') n1 ∧
    parent_end false (stdout_fd child) (stdout_fd child') (fds w') n2 ∧
    parent_end false (stderr_fd child) (stderr_fd child') (fds w') n3 ∧
    NoDup (parent_fds child child') ∧
    (∀ k, k ∈ parent_fds child child' → m0 !! k = None) ∧
    (∀ k, k ∉ parent_fds child child' → fds w' !! k = m0 !! k).
Proof.
  intros H1 H2 H3. unfold create_child_parent.
  destruct (parent_step_run (stdin_fd child) p1 fst snd set_stdin_fd child w)
    as (c1 & w1 & Hr1 & Hc1); [by eapply pipe_open_is_Some, pipe_open_at_open|].
  erewrite bind_run by exact Hr1.
  assert (stdout_fd c1 = stdout_fd child ∧ stderr_fd c1 = stderr_fd child)
    as [Ho1 He1].
  { destruct (decide _); [destruct Hc1 as (p & _ & -> & _) | destruct Hc1 as [-> _]]; done. }
  destruct (parent_step_run (stdout_fd c1) p2 snd fst set_stdout_fd c1 w1)
    as (c2 & w2 & Hr2 & Hc2); [rewrite Ho1; by eapply pipe_open_is_Some, pipe_open_at_open|].
  erewrite bind_run by exact Hr2.
  assert (stderr_fd c2 = stderr_fd child) as He2.
  { destruct (decide (stdout_fd c1 = _));
      [destruct Hc2 as (p & _ & -> & _) | destruct Hc2 as [-> _]]; done. }
  destruct (parent_step_run (stderr_fd c2) p3 snd fst set_stderr_fd c2 w2)
    as (c3 & w3 & Hr3 & Hc3); [rewrite He2; by eapply pipe_open_is_Some, pipe_open_at_open|].
  erewrite bind_run by exact Hr3.
  exists c3, w3. split; [reflexivity|].
  rewrite Ho1 in Hc2. rewrite He2 in Hc3.
  unfold pipe_open_at in H1, H2, H3. unfold parent_end, parent_fds.
  clear Hr1 Hr2 Hr3 Ho1 He1 He2.
  destruct (decide (stdin_fd child = REDIRECT_PIPE)) as [E1|E1];
    destruct (decide (stdout_fd child = REDIRECT_PIPE)) as [E2|E2];
    destruct (decide (stderr_fd child = REDIRECT_PIPE)) as [E3|E3];
    repeat match goal with
      | H : ∃ _, _ |- _ => destruct H
      | H : _ ∧ _ |- _ => destruct H
      end; simplify_eq/=.
  all: repeat match goal with
      | H : <[_:=_]> _ !! _ = None |- _ =>
          apply lookup_insert_None in H as [? ?]
      end.
  all: try rewrite E1; try rewrite E2; try rewrite E3; simpl.
  all: rewrite ?pipe_fd_other by done; simpl.
  all: repeat match goal with
      | H : fds _ = _ |- _ => rewrite H; clear H
      end.
  all: split; [done|].
  all: repeat match goal with
      | |- (∃ k, Fd _ = Fd k ∧ _) ∧ _ =>
          split; [eexists; split; [reflexivity|]; solve_fd_lookup|]
      | |- _ = _ ∧ _ => split; [done|]
      end.
  all: split; [repeat (apply NoDup_cons; split; [solve_fd_elem|]);
               apply NoDup_nil_2|].
  all: split; [intros k; solve_fd_elem|].
  all: intros k Hk; rewrite ?not_elem_of_cons in Hk.
  all: repeat match goal with H : _ ∧ _ |- _ => destruct H end.
  all: solve_fd_lookup.
Qed.

(** ** The child branch *)

Lemma dup2_run oldfd newfd w : ∃ r w', dup2 oldfd newfd w = (Returned r, w').
Proof.
  unfold dup2. do 2 (erewrite bind_run by reflexivity). world_simpl.
  destruct (fds w !! oldfd); [|by eexists _, _].
  destruct (decide (newfd < 0)%Z); [by eexists _, _|].
  erewrite bind_run by reflexivity. by eexists _, _.
Qed.

Lemma child_redirect_run mode pipe_fds end_of w :
  (mode = REDIRECT_PIPE → is_Some pipe_fds) →
  ∃ w', child_redirect mode pipe_fds end_of w = (Returned tt, w').
Proof.
  intros Hsome. destruct mode; simpl.
  - by eexists.
  - destruct (open_devnull_run w) as (w1 & Hrun & _).
    erewrite bind_run by exact Hrun.
    destruct (dup2_run STDIN_FILENO (devnull_fd w1) w1) as (r & w2 & Hrun2).
    erewrite bind_run by exact Hrun2. by eexists.
  - destruct Hsome as [p ->]; [done|]. erewrite bind_run by reflexivity.
    destruct (dup2_run STDIN_FILENO (end_of p) w) as (r & w2 & Hrun2).
    erewrite bind_run by exact Hrun2. by eexists.
  - destruct (dup2_run STDIN_FILENO fd w) as (r & w2 & Hrun2).
    erewrite bind_run by exact Hrun2. by eexists.
Qed.

Lemma execv_exit_run A path argv w :
  (execv path argv;; _exit (A := A) 1) w =
    (if decide (ret (reply_at 0 w) < 0)%Z then Exited 1
     else Execed path argv,
     set_log (log w ++ [EExecv path argv (ret (reply_at 0 w))])
       (set_script (tail (script w)) w)).
Proof.
  unfold execv, mbind, M_bind, next_reply, emit, modify, replace_image, _exit.
  simpl. by destruct (decide (ret (reply_at 0 w) < 0)%Z).
Qed.

(** The child branch does not return: it ends in the entry function, in
    the new program when [execv] succeeds, or in [_exit(1)] when it fails;
    by then the descriptors below the limit other than 0, 1 and 2 are
    closed and the effective user and group are the real ones. *)
Lemma create_child_child_run child p1 p2 p3 w :
  (stdin_fd child = REDIRECT_PIPE → is_Some p1) →
  (stdout_fd child = REDIRECT_PIPE → is_Some p2) →
  (stderr_fd child = REDIRECT_PIPE → is_Some p3) →
  child_done child (create_child_child child p1 p2 p3 w).
Proof.
  intros H1 H2 H3. unfold create_child_child.
  destruct (child_redirect_run (stdin_fd child) p1 fst w H1) as (w1 & Hr1).
  erewrite bind_run by exact Hr1.
  destruct (child_redirect_run (stdout_fd child) p2 snd w1 H2) as (w2 & Hr2).
  erewrite bind_run by exact Hr2.
  destruct (child_redirect_run (stderr_fd child) p3 snd w2 H3) as (w3 & Hr3).
  erewrite bind_run by exact Hr3.
  destruct (close_all_fds_run w3) as (w4 & Hr4 & Hfds & _ & Hrest & _).
  erewrite bind_run by exact Hr4.
  do 4 (erewrite bind_run by reflexivity).
  assert (nofile_limit w4 = nofile_limit w3) as Hlimit.
  { unfold nofile_limit. unfold rest_of in Hrest.
    assert (rlimit_nofile w4 = rlimit_nofile w3) as ->; [|done].
    injection Hrest; intros; assumption. }
  assert (Hclosed : ∀ k, (0 ≤ k < nofile_limit w4)%Z → ¬ is_std k →
            fds w4 !! k = None).
  { intros k Hk Hstd. rewrite Hfds, decide_True; [done|].
    split; [by rewrite <-Hlimit | done]. }
  unfold child_done, child_end. destruct (function child) as [f|].
  - split; [reflexivity|]. split; [done|]. by world_simpl.
  - rewrite execv_exit_run. world_simpl.
    split; [destruct (decide _); [by right | by left]|].
    split; [|done]. intros _. eexists. split; [apply last_snoc | done].
Qed.

(** ** The three ways [create_child] ends *)

Lemma create_child_fork_run child p1 p2 p3 n0 m0 m1 m2 w :
  pipe_open_at n0 (stdin_fd child) p1 m0 m1 →
  pipe_open_at (n0 + pipe_count (stdin_fd child)) (stdout_fd child) p2 m1 m2 →
  pipe_open_at (n0 + pipe_count (stdin_fd child) + pipe_count (stdout_fd child))
    (stderr_fd child) p3 m2 (fds w) →
  launch_outcome child n0 m0 (create_child_fork child p1 p2 p3 w).
Proof.
  intros H1 H2 H3. unfold create_child_fork.
  erewrite bind_run by reflexivity.
  set (r := ret (reply_at 0 w)). set (w1 := set_log _ _).
  assert (fds w1 = fds w) as Hfds by done.
  destruct (decide (r = 0)%Z) as [Hr|Hr]; [|destruct (decide (r < 0)%Z) as [Hneg|Hpos]].
  - right; right.
    apply (create_child_child_run (set_pid r child) p1 p2 p3 w1);
      by eapply pipe_open_is_Some, pipe_open_at_open.
  - left.
    destruct (fork_failed_run (set_pid r child) p1 p2 p3 m0 m1 m2 w1)
      as (w' & Hrun & _);
      [by eapply pipe_open_at_open | by eapply pipe_open_at_open
      | rewrite Hfds; by eapply pipe_open_at_open |].
    rewrite Hrun. by eexists.
  - right; left.
    destruct (create_child_parent_run (set_pid r child) p1 p2 p3 n0
                (n0 + pipe_count (stdin_fd child))
                (n0 + pipe_count (stdin_fd child) + pipe_count (stdout_fd child))
                m0 m1 m2 w1)
      as (child' & w' & Hrun & Hpid & Hrest);
      [done | done | by rewrite Hfds |].
    rewrite Hrun. exists child'. split; [done|]. split; [|done].
    rewrite Hpid. simpl. lia.
Qed.

Lemma create_child_stderr_run child p1 p2 n0 m0 m1 w :
  pipe_open_at n0 (stdin_fd child) p1 m0 m1 →
  pipe_open_at (n0 + pipe_count (stdin_fd child)) (stdout_fd child) p2 m1
    (fds w) →
  pipes w = n0 + pipe_count (stdin_fd child) + pipe_count (stdout_fd child) →
  launch_outcome child n0 m0 (create_child_stderr child p1 p2 w).
Proof.
  intros H1 H2 Hn. unfold create_child_stderr.
  destruct (decide (stderr_fd child = REDIRECT_PIPE)) as [Hmode|Hmode].
  - destruct (pipe_run_at w) as (p & w1 & Hrun & Hp).
    erewrite bind_run by exact Hrun. destruct p as [p|].
    + destruct Hp as [Hp _].
      eapply create_child_fork_run; [done | done |]. by rewrite Hmode, <-Hn.
    + destruct Hp as [Hp _].
      destruct (stderr_pipe_failed_run child p1 p2 m0 m1 w1)
        as (w' & Hrun' & _);
        [by eapply pipe_open_at_open
        | rewrite Hp; by eapply pipe_open_at_open |].
      left. rewrite Hrun'. by eexists.
  - eapply create_child_fork_run; [done | done |].
    by apply pipe_open_at_other.
Qed.

Lemma create_child_stdout_run child p1 n0 m0 w :
  pipe_open_at n0 (stdin_fd child) p1 m0 (fds w) →
  pipes w = n0 + pipe_count (stdin_fd child) →
  launch_outcome child n0 m0 (create_child_stdout child p1 w).
Proof.
  intros H1 Hn. unfold create_child_stdout.
  destruct (decide (stdout_fd child = REDIRECT_PIPE)) as [Hmode|Hmode].
  - destruct (pipe_run_at w) as (p & w1 & Hrun & Hp).
    erewrite bind_run by exact Hrun. destruct p as [p|].
    + destruct Hp as [Hp Hn1].
      eapply create_child_stderr_run; [done | by rewrite Hmode, <-Hn |].
      rewrite Hn1, Hn, Hmode. unfold pipe_count.
      repeat case_decide; done || lia.
    + destruct Hp as [Hp _].
      destruct (stdout_pipe_failed_run child p1 m0 w1)
        as (w' & Hrun' & _); [rewrite Hp; by eapply pipe_open_at_open|].
      left. rewrite Hrun'. by eexists.
  - eapply create_child_stderr_run; [done | by apply pipe_open_at_other |].
    rewrite Hn. unfold pipe_count. repeat case_decide; done || lia.
Qed.

Lemma create_child_run child w :
  launch_outcome child (pipes w) (fds w) (create_child child w).
Proof.
  unfold create_child.
  destruct (decide (stdin_fd child = REDIRECT_PIPE)) as [Hmode|Hmode].
  - destruct (pipe_run_at w) as (p & w1 & Hrun & Hp).
    erewrite bind_run by exact Hrun. destruct p as [p|].
    + destruct Hp as [Hp Hn1].
      eapply create_child_stdout_run; [by rewrite Hmode|].
      rewrite Hn1, Hmode. unfold pipe_count. repeat case_decide; done || lia.
    + left. by eexists.
  - eapply create_child_stdout_run; [by apply pipe_open_at_other|].
    unfold pipe_count. repeat case_decide; done || lia.
Qed.

Lemma child_end_not_returned child x :
  ¬ child_end child (Returned x).
Proof. unfold child_end. destruct (function child); intros H; [done|]. by destruct H. Qed.

(** X9. When [create_child] returns true, the process is the parent: the
    stored pid is positive.  Every stream that asked for a pipe holds an
    open descriptor of the parent's end of its own pipe: the call creates
    the pipes in the order stdin, stdout, stderr, and stdin holds the
    write end of the first pipe that the call created, stdout and stderr
    the read end of the pipe created for them.  Every other stream holds
    what it held.  The descriptors handed out are distinct and were not
    open before the call, and every other descriptor of the process is as
    before the call, so the child's ends are closed again. *)
Theorem create_child_success child w child' :
  (create_child child w).1 = Returned (true, child') →
  launched child child' (pipes w) (fds w) (fds (create_child child w).2).
Proof.
  intros Hret.
  destruct (create_child_run child w) as [[c Hc]|[(c & Hc & Hl)|(Hend & _)]].
  - rewrite Hret in Hc. by simplify_eq.
  - rewrite Hret in Hc. by simplify_eq.
  - rewrite Hret in Hend. by apply child_end_not_returned in Hend.
Qed.

Lemma create_child_success_witness :
  launched child_pipes
    (mkChild 7 (Fd 4) (Fd 5) (Fd 7) None 0 "/sbin/vlock-auth" ["vlock-auth"])
    (pipes (world0 [0; 0; 0; 7]%Z))
    (fds (world0 [0; 0; 0; 7]%Z))
    (fds (create_child child_pipes (world0 [0; 0; 0; 7]%Z)).2).
Proof.
  apply (create_child_success child_pipes (world0 [0; 0; 0; 7]%Z)).
  vm_compute. reflexivity.
Defined.

(** Handing the read ends of stdout and stderr out the other way round
    is not what [launched] describes: descriptor 7 is the read end of the
    third pipe, not of the second. *)
Example launched_not_swapped :
  ¬ launched child_pipes
      (mkChild 7 (Fd 4) (Fd 7) (Fd 5) None 0 "/sbin/vlock-auth" ["vlock-auth"])
      (pipes (world0 [0; 0; 0; 7]%Z))
      (fds (world0 [0; 0; 0; 7]%Z))
      (fds (create_child child_pipes (world0 [0; 0; 0; 7]%Z)).2).
Proof.
  intros (_ & _ & Hout & _). unfold parent_end in Hout. simpl in Hout.
  destruct Hout as (k & [= <-] & Hk). vm_compute in Hk. discriminate Hk.
Qed.

(** X10. [create_child] never runs into undefined behaviour, whatever the
    kernel answers: it returns to its caller, or it ends the way its child
    branch ends (in the entry function, in the new program or in
    [_exit(1)]).  In particular no pipe array is read before [pipe] has
    filled it. *)
Theorem create_child_defined child w :
  (∃ ok child', (create_child child w).1 = Returned (ok, child')) ∨
  child_end child (create_child child w).1.
Proof.
  destruct (create_child_run child w) as [[c Hc]|[(c & Hc & _)|(Hend & _)]].
  - left. by eexists _, _.
  - left. by eexists _, _.
  - by right.
Qed.

(** X11. From the call of [fork] on, in the process where [fork] returns 0
    (with the pipes that were asked for created): the code never returns
    to the caller of [create_child].  It ends in [_exit] of the entry
    function when the descriptor has one.  Otherwise its last call is
    [execv] of the descriptor's program, and it ends in that program when
    [execv] succeeds and in [_exit(1)] exactly when [execv] fails.  By
    then every descriptor from 3 up to the limit is closed and the
    effective user and group are the real ones. *)
Theorem create_child_in_child child p1 p2 p3 w :
  (stdin_fd child = REDIRECT_PIPE → is_Some p1) →
  (stdout_fd child = REDIRECT_PIPE → is_Some p2) →
  (stderr_fd child = REDIRECT_PIPE → is_Some p3) →
  ret (reply_at 0 w) = 0%Z →
  child_done child (create_child_fork child p1 p2 p3 w).
Proof.
  intros H1 H2 H3 Hfork. unfold create_child_fork.
  erewrite bind_run by reflexivity. rewrite Hfork.
  rewrite decide_True by done.
  by apply (create_child_child_run (set_pid 0 child) p1 p2 p3).
Qed.

Lemma create_child_in_child_witness :
  child_done child_pipes
    (create_child_fork child_pipes (Some (3, 4)%Z) (Some (5, 6)%Z)
       (Some (7, 8)%Z) (world0 [0; 0]%Z)).
Proof.
  apply create_child_in_child; [by eexists .. | reflexivity].
Defined.

(** The same child when [execv] fails: it ends in [_exit(1)]. *)
Example create_child_execv_fails :
  (create_child_fork child_pipes (Some (3, 4)%Z) (Some (5, 6)%Z)
     (Some (7, 8)%Z) (world0 [0; -1]%Z)).1 = Exited 1.
Proof. reflexivity. Qed.

(** ** Descriptors 0, 1 and 2 in the child *)

Lemma dup2_std n w :
  n ≠ STDOUT_FILENO → n ≠ STDERR_FILENO →
  ∃ r w',
    dup2 STDIN_FILENO n w = (Returned r, w') ∧
    (∀ k, is_std k → fds w' !! k = fds w !! k) ∧
    devnull_fd w' = devnull_fd w.
Proof.
  intros Hn1 Hn2. unfold dup2. do 2 (erewrite bind_run by reflexivity).
  world_simpl.
  destruct (fds w !! STDIN_FILENO) as [f|] eqn:Hf; [|by eexists _, _].
  destruct (decide (n < 0)%Z); [by eexists _, _|].
  erewrite bind_run by reflexivity. eexists _, _. split; [reflexivity|].
  world_simpl. split; [|done]. intros k Hk.
  destruct (decide (k = n)) as [->|Hne].
  - destruct Hk as [-> | [-> | ->] ]; [|done..]. by rewrite lookup_insert_eq.
  - by rewrite lookup_insert_ne.
Qed.

Lemma child_redirect_std mode pipe_fds end_of w :
  std_open w → off_std mode →
  (mode = REDIRECT_PIPE → ∃ q, pipe_fds = Some q ∧ ¬ is_std (end_of q)) →
  ∃ w',
    child_redirect mode pipe_fds end_of w = (Returned tt, w') ∧
    (∀ k, is_std k → fds w' !! k = fds w !! k) ∧
    ¬ is_std (devnull_fd w').
Proof.
  intros [Hopen Hnull] [Hm1 Hm2] Hpipe. destruct mode; simpl.
  - by eexists.
  - destruct (open_devnull_run w) as (w1 & Hrun & Hcase).
    erewrite bind_run by exact Hrun.
    assert ((∀ k, is_std k → fds w1 !! k = fds w !! k) ∧
            ¬ is_std (devnull_fd w1)) as [Hfds1 Hnull1].
    { destruct (decide (devnull_fd w < 0)%Z) as [Hneg|Hpos]; [|by subst w1].
      destruct Hcase as [_ [[Hd Hfds]|[Hfree Hfds]]].
      - rewrite Hd, Hfds. split; [done|]. unfold is_std. cbv. intuition lia.
      - assert (¬ is_std (devnull_fd w1)) as Hd.
        { intros Hstd. apply Hopen in Hstd as [f Hf]. congruence. }
        split; [|done]. intros k Hk. rewrite Hfds, lookup_insert_ne; [done|].
        by intros <-. }
    destruct (dup2_std (devnull_fd w1) w1) as (r & w2 & Hrun2 & Hfds2 & Hd2).
    { intros Hd. apply Hnull1. rewrite Hd. by right; left. }
    { intros Hd. apply Hnull1. rewrite Hd. by right; right. }
    erewrite bind_run by exact Hrun2. exists w2. split; [done|].
    split; [|by rewrite Hd2]. intros k Hk. by rewrite Hfds2, Hfds1.
  - destruct Hpipe as (q & -> & Hq); [done|].
    erewrite bind_run by reflexivity.
    destruct (dup2_std (end_of q) w) as (r & w2 & Hrun2 & Hfds2 & Hd2).
    { intros Hd. apply Hq. rewrite Hd. by right; left. }
    { intros Hd. apply Hq. rewrite Hd. by right; right. }
    erewrite bind_run by exact Hrun2. exists w2. split; [done|].
    split; [done | by rewrite Hd2].
  - destruct (dup2_std fd w) as (r & w2 & Hrun2 & Hfds2 & Hd2).
    { intros ->. by apply Hm1. }
    { intros ->. by apply Hm2. }
    erewrite bind_run by exact Hrun2. exists w2. split; [done|].
    split; [done | by rewrite Hd2].
Qed.

Lemma std_open_after w w' :
  std_open w →
  (∀ k, is_std k → fds w' !! k = fds w !! k) → ¬ is_std (devnull_fd w') →
  std_open w'.
Proof.
  intros [Hopen _] Hfds Hnull. split; [|done].
  intros k Hk. rewrite Hfds by done. by apply Hopen.
Qed.

Lemma create_child_child_std child p1 p2 p3 w :
  std_open w →
  off_std (stdin_fd child) → off_std (stdout_fd child) →
  off_std (stderr_fd child) →
  (stdin_fd child = REDIRECT_PIPE → ∃ q, p1 = Some q ∧ ¬ is_std q.1) →
  (stdout_fd child = REDIRECT_PIPE → ∃ q, p2 = Some q ∧ ¬ is_std q.2) →
  (stderr_fd child = REDIRECT_PIPE → ∃ q, p3 = Some q ∧ ¬ is_std q.2) →
  ∀ k, is_std k →
    fds (create_child_child child p1 p2 p3 w).2 !! k = fds w !! k.
Proof.
  intros Hw Ho1 Ho2 Ho3 H1 H2 H3 k Hk. unfold create_child_child.
  destruct (child_redirect_std (stdin_fd child) p1 fst w Hw Ho1 H1)
    as (w1 & Hr1 & Hfds1 & Hd1).
  erewrite bind_run by exact Hr1.
  pose proof (std_open_after w w1 Hw Hfds1 Hd1) as Hw1.
  destruct (child_redirect_std (stdout_fd child) p2 snd w1 Hw1 Ho2 H2)
    as (w2 & Hr2 & Hfds2 & Hd2).
  erewrite bind_run by exact Hr2.
  pose proof (std_open_after w1 w2 Hw1 Hfds2 Hd2) as Hw2.
  destruct (child_redirect_std (stderr_fd child) p3 snd w2 Hw2 Ho3 H3)
    as (w3 & Hr3 & Hfds3 & Hd3).
  erewrite bind_run by exact Hr3.
  destruct (close_all_fds_run w3) as (w4 & Hr4 & Hfds4 & _).
  erewrite bind_run by exact Hr4.
  do 4 (erewrite bind_run by reflexivity).
  assert (fds w4 !! k = fds w !! k) as Hfinal.
  { rewrite Hfds4, decide_False by tauto.
    by rewrite Hfds3, Hfds2, Hfds1. }
  destruct (function child) as [f|]; [done|].
  rewrite execv_exit_run. by world_simpl.
Qed.

Lemma pipe_open_std mode pipe_fds m m' :
  pipe_open mode pipe_fds m m' →
  (∀ k, is_std k → is_Some (m !! k)) →
  (∀ k, is_std k → m' !! k = m !! k) ∧
  (mode = REDIRECT_PIPE →
   ∃ q, pipe_fds = Some q ∧ ¬ is_std q.1 ∧ ¬ is_std q.2).
Proof.
  unfold pipe_open. intros H Hopen.
  destruct (decide (mode = REDIRECT_PIPE)) as [Hmode|Hmode];
    [|by subst m'].
  destruct H as (rd & wr & n & -> & Hrd & Hwr & _ & ->).
  assert (¬ is_std rd) as Hrd'.
  { intros Hs. apply Hopen in Hs as [f Hf]. congruence. }
  assert (¬ is_std wr) as Hwr'.
  { intros Hs. apply Hopen in Hs as [f Hf]. congruence. }
  split; [|intros _; by exists (rd, wr)].
  intros k Hk. rewrite !lookup_insert_ne; [done | by intros <- | by intros <-].
Qed.

Lemma pipe_devnull_fd w : devnull_fd (pipe w).2 = devnull_fd w.
Proof.
  unfold pipe. erewrite bind_run by reflexivity.
  destruct (decide _); [done|].
  by do 2 (erewrite bind_run by reflexivity).
Qed.

Lemma create_child_fork_std child p1 p2 p3 m0 m1 m2 w :
  (∀ k, is_std k → is_Some (m0 !! k)) → ¬ is_std (devnull_fd w) →
  off_std (stdin_fd child) → off_std (stdout_fd child) →
  off_std (stderr_fd child) →
  pipe_open (stdin_fd child) p1 m0 m1 →
  pipe_open (stdout_fd child) p2 m1 m2 →
  pipe_open (stderr_fd child) p3 m2 (fds w) →
  std_outcome m0 (create_child_fork child p1 p2 p3 w).
Proof.
  intros Hopen Hnull Ho1 Ho2 Ho3 H1 H2 H3.
  destruct (pipe_open_std _ _ _ _ H1 Hopen) as [Hm1 Hq1].
  assert (Hopen1 : ∀ k, is_std k → is_Some (m1 !! k)).
  { intros k Hk. rewrite Hm1 by done. by apply Hopen. }
  destruct (pipe_open_std _ _ _ _ H2 Hopen1) as [Hm2 Hq2].
  assert (Hopen2 : ∀ k, is_std k → is_Some (m2 !! k)).
  { intros k Hk. rewrite Hm2 by done. by apply Hopen1. }
  destruct (pipe_open_std _ _ _ _ H3 Hopen2) as [Hm3 Hq3].
  unfold create_child_fork. erewrite bind_run by reflexivity.
  set (r := ret (reply_at 0 w)). set (w1 := set_log _ _).
  assert (fds w1 = fds w) as Hfds by done.
  destruct (decide (r = 0)%Z) as [Hr|Hr];
    [|destruct (decide (r < 0)%Z) as [Hneg|Hpos]].
  - right. intros k Hk.
    rewrite create_child_child_std; try done.
    + by rewrite Hfds, Hm3, Hm2, Hm1.
    + split; [|done]. intros k' Hk'. rewrite Hfds, Hm3 by done.
      by apply Hopen2.
    + intros Hmode. destruct (Hq1 Hmode) as (q & -> & Hq & _). by exists q.
    + intros Hmode. destruct (Hq2 Hmode) as (q & -> & _ & Hq). by exists q.
    + intros Hmode. destruct (Hq3 Hmode) as (q & -> & _ & Hq). by exists q.
  - left.
    destruct (fork_failed_run (set_pid r child) p1 p2 p3 m0 m1 m2 w1)
      as (w' & Hrun & _); [done | done | by rewrite Hfds |].
    rewrite Hrun. by eexists.
  - left.
    destruct (pipe_open_at_exists _ _ _ _ H1) as [n1 H1'].
    destruct (pipe_open_at_exists _ _ _ _ H2) as [n2 H2'].
    destruct (pipe_open_at_exists _ _ _ _ H3) as [n3 H3'].
    destruct (create_child_parent_run (set_pid r child) p1 p2 p3 n1 n2 n3
                m0 m1 m2 w1)
      as (child' & w' & Hrun & _); [done | done | by rewrite Hfds |].
    rewrite Hrun. by eexists.
Qed.

Lemma create_child_stderr_std child p1 p2 m0 m1 w :
  (∀ k, is_std k → is_Some (m0 !! k)) → ¬ is_std (devnull_fd w) →
  off_std (stdin_fd child) → off_std (stdout_fd child) →
  off_std (stderr_fd child) →
  pipe_open (stdin_fd child) p1 m0 m1 →
  pipe_open (stdout_fd child) p2 m1 (fds w) →
  std_outcome m0 (create_child_stderr child p1 p2 w).
Proof.
  intros Hopen Hnull Ho1 Ho2 Ho3 H1 H2. unfold create_child_stderr.
  destruct (decide (stderr_fd child = REDIRECT_PIPE)) as [Hmode|Hmode].
  - destruct (pipe_run w) as (p & w1 & Hrun & _ & Hp).
    pose proof (pipe_devnull_fd w) as Hd. rewrite Hrun in Hd. simpl in Hd.
    erewrite bind_run by exact Hrun. destruct p as [p|].
    + eapply create_child_fork_std; try done; [by rewrite Hd | by rewrite Hmode].
    + destruct (stderr_pipe_failed_run child p1 p2 m0 m1 w1)
        as (w' & Hrun' & _); [done | by rewrite Hp |].
      left. rewrite Hrun'. by eexists.
  - eapply create_child_fork_std; try done.
    unfold pipe_open. by rewrite decide_False.
Qed.

Lemma create_child_stdout_std child p1 m0 w :
  (∀ k, is_std k → is_Some (m0 !! k)) → ¬ is_std (devnull_fd w) →
  off_std (stdin_fd child) → off_std (stdout_fd child) →
  off_std (stderr_fd child) →
  pipe_open (stdin_fd child) p1 m0 (fds w) →
  std_outcome m0 (create_child_stdout child p1 w).
Proof.
  intros Hopen Hnull Ho1 Ho2 Ho3 H1. unfold create_child_stdout.
  destruct (decide (stdout_fd child = REDIRECT_PIPE)) as [Hmode|Hmode].
  - destruct (pipe_run w) as (p & w1 & Hrun & _ & Hp).
    pose proof (pipe_devnull_fd w) as Hd. rewrite Hrun in Hd. simpl in Hd.
    erewrite bind_run by exact Hrun. destruct p as [p|].
    + eapply create_child_stderr_std; try done; [by rewrite Hd | by rewrite Hmode].
    + destruct (stdout_pipe_failed_run child p1 m0 w1)
        as (w' & Hrun' & _); [by rewrite Hp|].
      left. rewrite Hrun'. by eexists.
  - eapply create_child_stderr_std; try done.
    unfold pipe_open. by rewrite decide_False.
Qed.

Lemma create_child_std child w :
  std_open w →
  off_std (stdin_fd child) → off_std (stdout_fd child) →
  off_std (stderr_fd child) →
  std_outcome (fds w) (create_child child w).
Proof.
  intros [Hopen Hnull] Ho1 Ho2 Ho3. unfold create_child.
  destruct (decide (stdin_fd child = REDIRECT_PIPE)) as [Hmode|Hmode].
  - destruct (pipe_run w) as (p & w1 & Hrun & _ & Hp).
    pose proof (pipe_devnull_fd w) as Hd. rewrite Hrun in Hd. simpl in Hd.
    erewrite bind_run by exact Hrun. destruct p as [p|].
    + eapply create_child_stdout_std; try done; [by rewrite Hd | by rewrite Hmode].
    + left. by eexists.
  - eapply create_child_stdout_std; try done.
    unfold pipe_open. by rewrite decide_False.
Qed.

(** X12. No redirection takes effect in the child.  When the caller has
    descriptors 0, 1 and 2 open and no stream names descriptor 1 or 2 as
    its target, then in the process that does not return from
    [create_child] descriptors 0, 1 and 2 refer, at the end, to what they
    referred to in the caller: every [dup2] copies descriptor 0 onto the
    target, and [close_all_fds] then closes the target. *)
Theorem create_child_child_streams child w :
  std_open w →
  off_std (stdin_fd child) → off_std (stdout_fd child) →
  off_std (stderr_fd child) →
  child_end child (create_child child w).1 →
  ∀ k, is_std k → fds (create_child child w).2 !! k = fds w !! k.
Proof.
  intros Hw Ho1 Ho2 Ho3 Hend.
  destruct (create_child_std child w Hw Ho1 Ho2 Ho3) as [[x Hx]|Hstd];
    [|done].
  rewrite Hx in Hend. by apply child_end_not_returned in Hend.
Qed.

(** A child with three pipes whose [execv] succeeds: its descriptor 1 is
    still the console. *)
Lemma create_child_child_streams_witness :
  fds (create_child child_pipes (world0 [0; 0; 0; 0; 0]%Z)).2 !! 1%Z
    = fds (world0 [0; 0; 0; 0; 0]%Z) !! 1%Z.
Proof.
  apply (create_child_child_streams child_pipes (world0 [0; 0; 0; 0; 0]%Z)).
  - split.
    + intros k [-> | [-> | ->] ]; by eexists.
    + simpl. intros [H | [H | H] ]; discriminate H.
  - split; discriminate.
  - split; discriminate.
  - split; discriminate.
  - left. vm_compute. reflexivity.
  - right; left. reflexivity.
Defined.

(** * Further properties: signal handling *)

Lemma mask_signals_run w :
  ∃ w',
    mask_signals w = (Returned tt, w') ∧
    (∀ s, actions w' s =
          match installed_handler s with
          | Some f => mkSigaction (Handler f) ∅ 0
          | None => actions w s
          end) ∧
    (∀ s, s ∈ mask w' ↔
          s ∈ [SIGTSTP; SIGTTIN; SIGTTOU; SIGHUP] ∨
          (s ∈ mask w ∧ s ∉ [SIGUSR1; SIGUSR2; SIGCHLD; SIGKILL])) ∧
    osig w' = mask w ∧
    fds w' = fds w ∧ real_timer w' = real_timer w ∧ script w' = script w.
Proof.
  unfold mask_signals.
  erewrite bind_run by reflexivity.
  erewrite bind_run by apply sigprocmask_set_run.
  erewrite bind_run by reflexivity.
  do 7 (erewrite bind_run by (by apply sigaction_run)).
  eexists. split; [reflexivity|]. world_simpl.
  split; [intros s; by destruct s|].
  split; [|done].
  intros s. rewrite !not_elem_of_cons, !elem_of_cons, elem_of_nil.
  solve_mask.
Qed.

Lemma restore_signals_run w :
  restore_signals w =
    (Returned tt,
     set_mask (osig w ∖ {[SIGKILL]})
       (set_log (log w ++ [ESigprocmask (osig w)]) w)).
Proof. reflexivity. Qed.

(** X13. What [mask_signals] changes, for every signal: the signals with a
    handler of the program get exactly that handler, with an empty mask and
    no flags ([release_vt] for SIGUSR1, [acquire_vt] for SIGUSR2,
    [signal_die] for SIGCHLD, [signal_ignorer] for the four job-control
    and hangup signals), and every other disposition is as before; the new
    mask is the old one with SIGTSTP, SIGTTIN, SIGTTOU and SIGHUP added
    and SIGUSR1, SIGUSR2 and SIGCHLD removed; the old mask is saved. *)
Theorem mask_signals_effect w :
  ∃ w',
    mask_signals w = (Returned tt, w') ∧
    (∀ s, actions w' s =
          match installed_handler s with
          | Some f => mkSigaction (Handler f) ∅ 0
          | None => actions w s
          end) ∧
    (∀ s, s ∈ mask w' ↔
          s ∈ [SIGTSTP; SIGTTIN; SIGTTOU; SIGHUP] ∨
          (s ∈ mask w ∧ s ∉ [SIGUSR1; SIGUSR2; SIGCHLD; SIGKILL])) ∧
    osig w' = mask w.
Proof.
  destruct (mask_signals_run w) as (w' & Hrun & Hact & Hmask & Hosig & _).
  by exists w'.
Qed.

(** X14. [restore_signals] after [mask_signals] puts the signal mask back
    as it was before [mask_signals] (a mask of a process never holds
    SIGKILL), but not the dispositions: the handlers that [mask_signals]
    installed stay installed. *)
Theorem mask_restore_round_trip w :
  SIGKILL ∉ mask w →
  ∃ w',
    (mask_signals;; restore_signals) w = (Returned tt, w') ∧
    mask w' = mask w ∧
    (∀ s, actions w' s = actions (mask_signals w).2 s) ∧
    sa_handler (actions w' SIGCHLD) = Handler fn_signal_die.
Proof.
  intros Hkill.
  destruct (mask_signals_run w) as (w1 & Hrun & Hact & _ & Hosig & _).
  erewrite bind_run by exact Hrun. rewrite restore_signals_run, Hrun.
  eexists. split; [reflexivity|]. world_simpl.
  split; [|split; [done | by rewrite Hact]].
  rewrite Hosig. apply set_eq. intros s. solve_mask.
Qed.

Lemma mask_restore_round_trip_witness :
  ∃ w',
    (mask_signals;; restore_signals) (world0 []) = (Returned tt, w') ∧
    mask w' = mask (world0 []) ∧
    (∀ s, actions w' s = actions (mask_signals (world0 [])).2 s) ∧
    sa_handler (actions w' SIGCHLD) = Handler fn_signal_die.
Proof.
  apply (mask_restore_round_trip (world0 [])). simpl.
  apply not_elem_of_empty.
Defined.

(** X15. The saved mask is one variable: when [mask_signals] runs twice,
    the second call overwrites what the first saved, and [restore_signals]
    then gives the mask that the first call set, not the one the process
    started with; SIGTSTP, SIGTTIN, SIGTTOU and SIGHUP stay blocked. *)
Theorem mask_signals_twice w :
  ∃ w',
    (mask_signals;; mask_signals;; restore_signals) w = (Returned tt, w') ∧
    mask w' = mask (mask_signals w).2 ∧
    Forall (λ s, s ∈ mask w') [SIGTSTP; SIGTTIN; SIGTTOU; SIGHUP].
Proof.
  destruct (mask_signals_run w) as (w1 & Hrun1 & _ & Hmask1 & _).
  destruct (mask_signals_run w1) as (w2 & Hrun2 & _ & _ & Hosig2 & _).
  erewrite bind_run by exact Hrun1. erewrite bind_run by exact Hrun2.
  rewrite restore_signals_run, Hrun1.
  eexists. split; [reflexivity|]. world_simpl. rewrite Hosig2.
  assert (mask w1 ∖ {[SIGKILL]} = mask w1) as ->.
  { apply set_eq. intros s. rewrite elem_of_difference, elem_of_singleton.
    split; [tauto|]. intros Hs. split; [done|]. intros ->.
    apply Hmask1 in Hs. rewrite !not_elem_of_cons, !elem_of_cons, elem_of_nil in Hs.
    intuition congruence. }
  split; [done|].
  repeat (apply Forall_cons; split;
          [apply Hmask1; left; rewrite !elem_of_cons; tauto|]).
  by apply Forall_nil.
Qed.

(** X16. [signal_die] takes any answer of [waitpid] other than 0 as the end
    of the child: also when [waitpid] fails (a negative value, as when the
    process has no child), it restores the terminal and exits with status
    0. *)
Theorem signal_die_waitpid_fails signo w :
  (ret (reply_at 0 w) < 0)%Z →
  ∃ w',
    signal_die signo w = (Exited 0, w') ∧
    log w' = log w ++ [EWaitpid (-1) WNOHANG (ret (reply_at 0 w));
                       ERestoreTerminal].
Proof.
  intros Hneg. unfold signal_die.
  erewrite bind_run by apply waitpid_nohang_run.
  rewrite decide_True by lia.
  eexists. split; [reflexivity|]. world_simpl. by rewrite <-app_assoc.
Qed.

Lemma signal_die_waitpid_fails_witness :
  ∃ w',
    signal_die 17 (world0 [-1]%Z) = (Exited 0, w') ∧
    log w' = log (world0 [-1]%Z) ++
      [EWaitpid (-1) WNOHANG (ret (reply_at 0 (world0 [-1]%Z)));
       ERestoreTerminal].
Proof. apply (signal_die_waitpid_fails 17 (world0 [-1]%Z)). reflexivity. Defined.

(** * Further properties: the death of a child *)


(** X18. [wait_for_death] does not check what [setitimer] returns.  For a
    duration that [setitimer] rejects (negative seconds, or microseconds
    outside 0..999999) it makes the same five calls all the same: the
    timer is not armed, the previous timer is never stored in [otimer], and
    the second [setitimer] is handed what that variable happened to hold,
    which becomes the timer of the process when it is a value that
    [setitimer] accepts.  The disposition of SIGALRM is put back, and the
    call returns whether [waitpid] returned [pid]. *)
Theorem wait_for_death_unchecked pid sec usec w :
  ¬ (0 ≤ sec ∧ 0 ≤ usec < 1000000)%Z →
  ∃ w',
    wait_for_death pid sec usec w =
      (Returned (bool_decide (ret (reply_at 0 w) = pid)), w') ∧
    log w' = log w ++
      [ESigaction SIGALRM (mkSigaction (Handler fn_ignore_sigalarm) ∅ 0);
       ESetitimer (mkItimerval (mkTimeval 0 0) (mkTimeval sec usec));
       EWaitpid pid 0 (ret (reply_at 0 w));
       ESetitimer (stack_otimer w);
       ESigaction SIGALRM (actions w SIGALRM)] ∧
    (itimerval_valid (stack_otimer w) = true →
     real_timer w' = stack_otimer w) ∧
    (∀ s, actions w' s = actions w s).
Proof.
  intros Hbad.
  assert (itimerval_valid (mkItimerval (mkTimeval 0 0) (mkTimeval sec usec))
          = false) as Hinvalid.
  { unfold itimerval_valid, timeval_valid. simpl.
    by apply bool_decide_eq_false. }
  pose proof (wait_for_death_run_any pid sec usec w) as H.
  cbv zeta in H. rewrite Hinvalid in H.
  destruct H as (w' & Hrun & Hlog & _ & Htimer & Hact & _).
  by exists w'.
Qed.

(** Minus one second. *)
Lemma wait_for_death_unchecked_witness :
  ∃ w',
    wait_for_death 5 (-1) 0 (world0 [5%Z]) =
      (Returned (bool_decide (ret (reply_at 0 (world0 [5%Z])) = 5%Z)), w') ∧
    log w' = log (world0 [5%Z]) ++
      [ESigaction SIGALRM (mkSigaction (Handler fn_ignore_sigalarm) ∅ 0);
       ESetitimer (mkItimerval (mkTimeval 0 0) (mkTimeval (-1) 0));
       EWaitpid 5 0 (ret (reply_at 0 (world0 [5%Z])));
       ESetitimer (stack_otimer (world0 [5%Z]));
       ESigaction SIGALRM (actions (world0 [5%Z]) SIGALRM)] ∧
    (itimerval_valid (stack_otimer (world0 [5%Z])) = true →
     real_timer w' = stack_otimer (world0 [5%Z])) ∧
    (∀ s, actions w' s = actions (world0 [5%Z]) s).
Proof. apply (wait_for_death_unchecked 5 (-1) 0 (world0 [5%Z])). lia. Defined.
